(** * manage-archive.py: a shallow embedding and its verified properties

    The program is a command line front end to four operations of a remote
    cold-storage service (Amazon S3 Glacier through boto3): list the vaults,
    start an inventory job, fetch the result of an inventory job, delete the
    archives whose IDs are scraped from a text log.

    Modelling choices, in the order of the file:
    - a Python [str] is a list of Unicode code points ([N]); [py] turns a
      Rocq string literal into one; [bytes] is a list of bytes;
    - Python integers are [Z];
    - the body of a job output is decoded the way [json.loads] decodes
      bytes: the encoding is detected, the bytes are decoded, the text is
      parsed; the two resource limits of the interpreter (digits of an
      integer, depth of nesting) are left out of the parser and appear as
      hypotheses where an arbitrary body is decoded;
    - [console.print] reads the markup of its text before anything else
      and raises when a closing tag matches nothing; the syntax of tags is
      modelled, the style tables of the library are part of the
      environment;
    - effects (remote calls, console output, logging, the log file) are
      events appended to a trace, threaded through a state-and-exception
      monad [M]; an uncaught exception is the outcome [Raise];
    - the remote service, the file system and the style tables are the
      environment, a record of functions ([world]); the service may answer
      each call from the whole history of the run;
    - [console.print] and [logging.error] are recorded at their call
      boundary: the event carries the value the program passes, for a call
      that returned; how the console lays the text out (it folds long
      lines) and when it writes it to its stream are beyond the model;
    - building the client ([boto3.client]) and entering the console
      context ([with rich.console.Console()]) leave no event. *)

From Stdlib Require Import List ZArith NArith Bool Lia Ascii String.
From Stdlib Require Import DecimalString DecimalZ.
From Stdlib.Strings Require Byte.
Import ListNotations.

(* ===================================================================== *)
(** ** Python strings *)
(* ===================================================================== *)

Module PyStr.

Definition char := N.
Definition str := list char.

(** A literal of the source. *)
Definition py (s : string) : str := map N_of_ascii (list_ascii_of_string s).

(** The inverse of [py], on code points below 256; only the modelled
    service uses it, to read a number back. *)
Definition to_string (s : str) : string :=
  string_of_list_ascii (map ascii_of_N s).

(** [str.isspace] on one code point: the characters [str.strip()]
    removes (bidirectional class WS, B or S, or category Zs). *)
Definition isspace (c : char) : bool :=
  (((9 <=? c) && (c <=? 13)) || ((28 <=? c) && (c <=? 32))
   || (c =? 133) || (c =? 160) || (c =? 5760)
   || ((8192 <=? c) && (c <=? 8202))
   || (c =? 8232) || (c =? 8233) || (c =? 8239) || (c =? 8287)
   || (c =? 12288))%N.

Fixpoint lstrip (s : str) : str :=
  match s with
  | [] => []
  | c :: r => if isspace c then lstrip r else s
  end.

Definition rstrip (s : str) : str := List.rev (lstrip (List.rev s)).

(** [s.strip()] *)
Definition strip (s : str) : str := rstrip (lstrip s).

Fixpoint eqb (a b : str) : bool :=
  match a, b with
  | [], [] => true
  | x :: a', y :: b' => (x =? y)%N && eqb a' b'
  | _, _ => false
  end.

Fixpoint startswith (sub s : str) : bool :=
  match sub, s with
  | [], _ => true
  | x :: sub', y :: s' => (x =? y)%N && startswith sub' s'
  | _ :: _, [] => false
  end.

(** [s.find(sub)]: the lowest index where [sub] occurs in [s]. *)
Fixpoint find (sub s : str) : option nat :=
  if startswith sub s then Some 0
  else match s with
       | [] => None
       | _ :: r => option_map S (find sub r)
       end.

(** [sub in s] *)
Definition contains (sub s : str) : bool :=
  match find sub s with Some _ => true | None => false end.

(** [s[n:]] for [n >= 0]: a slice past the end is empty. *)
Definition slice_from (n : nat) (s : str) : str := skipn n s.

(** [sep.join(l)] *)
Fixpoint join (sep : str) (l : list str) : str :=
  match l with
  | [] => []
  | [x] => x
  | x :: r => x ++ sep ++ join sep r
  end.

(** [str(z)] for an integer. *)
Definition of_int (z : Z) : str := py (NilZero.string_of_int (Z.to_int z)).

(** [format(z, '<w>d')]: decimal, right-aligned in a field of [w]. *)
Definition fmt_d (w : nat) (z : Z) : str :=
  let s := of_int z in repeat 32%N (w - List.length s) ++ s.

(** A decimal parameter as the modelled service reads it: an optional
    minus sign and ASCII digits, nothing else. *)
Definition to_int (s : str) : option Z :=
  if forallb (fun c => c <? 256)%N s
  then option_map Z.of_int (NilZero.int_of_string (to_string s))
  else None.

End PyStr.
Import PyStr.

(** The code point of a high surrogate joined with a low one. *)
Definition join_surrogates (u u' : N) : option N :=
  if ((55296 <=? u) && (u <=? 56319) && (56320 <=? u') && (u' <=? 57343))%N
  then Some (65536 + (u - 55296) * 1024 + (u' - 56320))%N
  else None.

(* ===================================================================== *)
(** ** Bytes and their decoding to text *)
(* ===================================================================== *)

(** [bytes], what the body of a response is read into. *)
Definition bytes := list Byte.byte.

(** [s.encode('ascii', 'replace')], which writes the examples. *)
Definition ascii_bytes (s : str) : bytes :=
  map (fun c => match Byte.of_N (if (c <? 128)%N then c else 63%N) with
                | Some b => b
                | None => Byte.x3f
                end) s.

Module Codec.

(** The encodings [json.detect_encoding] tells apart. *)
Inductive encoding : Type :=
| utf_8 | utf_8_sig | utf_16 | utf_16_be | utf_16_le
| utf_32 | utf_32_be | utf_32_le.

(** [json.detect_encoding(b)]: a byte order mark decides; without one, the
    place of the zero bytes among the first four (or two) bytes does, since
    a JSON text begins with two ASCII characters. *)
Definition detect_encoding (b : list N) : encoding :=
  if startswith [0; 0; 254; 255]%N b || startswith [255; 254; 0; 0]%N b
  then utf_32
  else if startswith [254; 255]%N b || startswith [255; 254]%N b then utf_16
  else if startswith [239; 187; 191]%N b then utf_8_sig
  else
    match b with
    | b0 :: b1 :: b2 :: b3 :: _ =>
        if (b0 =? 0)%N then (if (b1 =? 0)%N then utf_32_be else utf_16_be)
        else if (b1 =? 0)%N
        then (if ((b2 =? 0) && (b3 =? 0))%N then utf_32_le else utf_16_le)
        else utf_8
    | [b0; b1] =>
        if (b0 =? 0)%N then utf_16_be
        else if (b1 =? 0)%N then utf_16_le
        else utf_8
    | _ => utf_8
    end.

Definition continuation (b : N) : bool := ((128 <=? b) && (b <=? 191))%N.

(** UTF-8 with the error handler [surrogatepass]: shortest forms only, up
    to U+10FFFF; the three-byte forms of the surrogates are let through. *)
Fixpoint decode_utf_8 (b : list N) : option str :=
  match b with
  | [] => Some []
  | b0 :: r0 =>
      if (b0 <? 128)%N then option_map (cons b0) (decode_utf_8 r0)
      else if (b0 <? 224)%N then
        match r0 with
        | b1 :: r1 =>
            if (194 <=? b0)%N && continuation b1
            then option_map (cons ((b0 - 192) * 64 + (b1 - 128))%N)
                            (decode_utf_8 r1)
            else None
        | [] => None
        end
      else if (b0 <? 240)%N then
        match r0 with
        | b1 :: b2 :: r2 =>
            let c := ((b0 - 224) * 4096 + (b1 - 128) * 64 + (b2 - 128))%N in
            if continuation b1 && continuation b2 && (2048 <=? c)%N
            then option_map (cons c) (decode_utf_8 r2)
            else None
        | _ => None
        end
      else
        match r0 with
        | b1 :: b2 :: b3 :: r3 =>
            let c := ((b0 - 240) * 262144 + (b1 - 128) * 4096
                      + (b2 - 128) * 64 + (b3 - 128))%N in
            if continuation b1 && continuation b2 && continuation b3
               && (65536 <=? c)%N && (c <? 1114112)%N
            then option_map (cons c) (decode_utf_8 r3)
            else None
        | _ => None
        end
  end.

(** A code unit of two bytes, by byte order. *)
Definition unit_16 (big : bool) (x y : N) : N :=
  (if big then x * 256 + y else y * 256 + x)%N.

(** UTF-16 with [surrogatepass]: a high surrogate followed by a low one
    is one code point; a surrogate alone is let through; a byte left over
    is an error. *)
Fixpoint decode_utf_16 (big : bool) (b : list N) : option str :=
  match b with
  | [] => Some []
  | [_] => None
  | x :: y :: r =>
      let u := unit_16 big x y in
      match r with
      | x' :: y' :: r' =>
          match join_surrogates u (unit_16 big x' y') with
          | Some c => option_map (cons c) (decode_utf_16 big r')
          | None => option_map (cons u) (decode_utf_16 big r)
          end
      | _ => option_map (cons u) (decode_utf_16 big r)
      end
  end.

(** UTF-32 with [surrogatepass]: four bytes a code point, up to U+10FFFF. *)
Fixpoint decode_utf_32 (big : bool) (b : list N) : option str :=
  match b with
  | [] => Some []
  | x :: y :: z :: t :: r =>
      let u := (if big then ((x * 256 + y) * 256 + z) * 256 + t
                else ((t * 256 + z) * 256 + y) * 256 + x)%N in
      if (u <? 1114112)%N then option_map (cons u) (decode_utf_32 big r)
      else None
  | _ => None
  end.

(** [b.decode(e, 'surrogatepass')]; [None] is [UnicodeDecodeError].  The
    codecs [utf-16], [utf-32] and [utf-8-sig] read the byte order mark
    and drop it. *)
Definition decode (e : encoding) (b : list N) : option str :=
  match e with
  | utf_8 => decode_utf_8 b
  | utf_8_sig => decode_utf_8 (skipn 3 b)
  | utf_16 => decode_utf_16 (startswith [254; 255]%N b) (skipn 2 b)
  | utf_16_be => decode_utf_16 true b
  | utf_16_le => decode_utf_16 false b
  | utf_32 => decode_utf_32 (startswith [0; 0; 254; 255]%N b) (skipn 4 b)
  | utf_32_be => decode_utf_32 true b
  | utf_32_le => decode_utf_32 false b
  end.

End Codec.

(* ===================================================================== *)
(** ** JSON documents and [json.loads] *)
(* ===================================================================== *)

Module Json.

(** What [json.loads] builds: [None], [bool], [int], [float], [str],
    [list] and [dict].  An [int] has any size.  A float keeps the text
    of its literal (the program never computes with one).  A dict is the list of its
    members as parsed; [get] reads it the way a Python dict answers. *)
#[local] Unset Elimination Schemes.
Inductive value : Type :=
| JNull
| JBool (b : bool)
| JInt (z : Z)
| JFloat (lit : str)
| JStr (s : str)
| JArr (items : list value)
| JObj (members : list (str * value)).
#[local] Set Elimination Schemes.

(** [d[k]] on a dict built from members in order: a repeated key keeps
    its last value. *)
Fixpoint get (k : str) (members : list (str * value)) : option value :=
  match members with
  | [] => None
  | (k', v) :: r =>
      match get k r with
      | Some v' => Some v'
      | None => if PyStr.eqb k k' then Some v else None
      end
  end.

(** The keys of the dict, each once, in order of first insertion. *)
Fixpoint keys (members : list (str * value)) (seen : list str) : list str :=
  match members with
  | [] => []
  | (k, _) :: r =>
      if existsb (PyStr.eqb k) seen then keys r seen
      else k :: keys r (k :: seen)
  end.

(** Result of a scan: a value and the rest of the text, a syntax error
    ([json.JSONDecodeError]), bytes that are no text
    ([UnicodeDecodeError], from [loads] only), or the budget of the model
    used up (which [loads] never meets: lemma [loads_total]). *)
Inductive scan (A : Type) : Type :=
| Scanned (a : A) (rest : str)
| Malformed
| Undecodable
| Exhausted.
Arguments Scanned {A} a rest.
Arguments Malformed {A}.
Arguments Undecodable {A}.
Arguments Exhausted {A}.

Definition is_ws (c : char) : bool :=
  ((c =? 32) || (c =? 9) || (c =? 10) || (c =? 13))%N.

Fixpoint skip_ws (s : str) : str :=
  match s with
  | c :: r => if is_ws c then skip_ws r else s
  | [] => []
  end.

Definition is_digit (c : char) : bool := ((48 <=? c) && (c <=? 57))%N.

Fixpoint span_digits (s : str) : str * str :=
  match s with
  | c :: r =>
      if is_digit c then let (d, r') := span_digits r in (c :: d, r')
      else ([], s)
  | [] => ([], [])
  end.

Definition digits_value (d : str) : Z :=
  fold_left (fun a c => 10 * a + Z.of_N (c - 48))%Z d 0%Z.

Definition hex_digit (c : char) : option N :=
  (if is_digit c then Some (c - 48)
   else if (97 <=? c) && (c <=? 102) then Some (c - 87)
   else if (65 <=? c) && (c <=? 70) then Some (c - 55)
   else None)%N.

Definition hex4 (a b c d : char) : option N :=
  match hex_digit a, hex_digit b, hex_digit c, hex_digit d with
  | Some x, Some y, Some z, Some w => Some (((x * 16 + y) * 16 + z) * 16 + w)%N
  | _, _, _, _ => None
  end.

Definition simple_escape (c : char) : option char :=
  (if c =? 34 then Some 34 else if c =? 92 then Some 92
   else if c =? 47 then Some 47 else if c =? 98 then Some 8
   else if c =? 102 then Some 12 else if c =? 110 then Some 10
   else if c =? 114 then Some 13 else if c =? 116 then Some 9
   else None)%N.

(** Whether the text begins with the character [c]. *)
Definition starts (c : char) (s : str) : bool :=
  match s with
  | x :: _ => (x =? c)%N
  | [] => false
  end.
Arguments starts c%_N s.

(** The body of a string literal, after its opening quote (strict mode:
    a raw control character is an error; a high surrogate escape followed
    by a low surrogate escape is one code point). *)
Fixpoint scan_string (s : str) (acc : str) : scan str :=
  match s with
  | [] => Malformed
  | c :: r =>
      if (c =? 34)%N then Scanned acc r
      else if (c =? 92)%N then
        match r with
        | [] => Malformed
        | e :: r1 =>
            if (e =? 117)%N then
              match r1 with
              | a :: b :: c1 :: d :: r2 =>
                  match hex4 a b c1 d with
                  | None => Malformed
                  | Some u =>
                      match r2 with
                      | x :: y :: a' :: b' :: c' :: d' :: r3 =>
                          match (if ((x =? 92) && (y =? 117))%N
                                 then match hex4 a' b' c' d' with
                                      | Some u' => join_surrogates u u'
                                      | None => None
                                      end
                                 else None) with
                          | Some joined => scan_string r3 (acc ++ [joined])
                          | None => scan_string r2 (acc ++ [u])
                          end
                      | _ => scan_string r2 (acc ++ [u])
                      end
                  end
              | _ => Malformed
              end
            else
              match simple_escape e with
              | Some c' => scan_string r1 (acc ++ [c'])
              | None => Malformed
              end
        end
      else if (c <? 32)%N then Malformed
      else scan_string r (acc ++ [c])
  end.

(** A number: an optional minus sign, then 0 or a digit string without
    leading zero, then an optional fraction (a dot and digits) and an
    optional exponent (e or E, an optional sign, digits); an [int] when
    it has neither fraction nor exponent.  A dot or an exponent mark
    without digits is left unread. *)
Definition scan_number (s : str) : scan value :=
  let neg := starts 45 s in
  let s1 := if neg then tl s else s in
  match s1 with
  | [] => Malformed
  | c :: r =>
      if negb (is_digit c) then Malformed else
      let (ip, rest) := if (c =? 48)%N then ([c], r) else span_digits s1 in
      let (frac, rest1) :=
        if starts 46 rest then
          match span_digits (tl rest) with
          | ([], _) => ([], rest)
          | (d, r2) => (46%N :: d, r2)
          end
        else ([], rest) in
      let (ex, rest2) :=
        if starts 101 rest1 || starts 69 rest1 then
          let r1 := tl rest1 in
          let signed := starts 43 r1 || starts 45 r1 in
          match span_digits (if signed then tl r1 else r1) with
          | ([], _) => ([], rest1)
          | (d, r3) =>
              (firstn 1 rest1 ++ (if signed then firstn 1 r1 else []) ++ d, r3)
          end
        else ([], rest1) in
      match frac, ex with
      | [], [] =>
          Scanned (JInt (if neg then - digits_value ip else digits_value ip)%Z)
                  rest2
      | _, _ =>
          Scanned (JFloat ((if neg then [45%N] else []) ++ ip ++ frac ++ ex))
                  rest2
      end
  end.

(** The literals, among them the three that Python accepts beyond JSON. *)
Definition scan_literal (s : str) : scan value :=
  if startswith (py "null") s then Scanned JNull (skipn 4 s)
  else if startswith (py "true") s then Scanned (JBool true) (skipn 4 s)
  else if startswith (py "false") s then Scanned (JBool false) (skipn 5 s)
  else if startswith (py "NaN") s then Scanned (JFloat (py "NaN")) (skipn 3 s)
  else if startswith (py "Infinity") s
       then Scanned (JFloat (py "Infinity")) (skipn 8 s)
  else if startswith (py "-Infinity") s
       then Scanned (JFloat (py "-Infinity")) (skipn 9 s)
  else scan_number s.

(** [scan_once] of the decoder, with the object and array loops. *)
Fixpoint scan_once (fuel : nat) (s : str) {struct fuel} : scan value :=
  match fuel with
  | O => Exhausted
  | S n =>
      if starts 34 s then
        match scan_string (tl s) [] with
        | Scanned k r => Scanned (JStr k) r
        | Malformed => Malformed
        | Undecodable => Undecodable
        | Exhausted => Exhausted
        end
      else if starts 123 s then
        let r := skip_ws (tl s) in
        if starts 125 r then Scanned (JObj []) (tl r)
        else scan_members n r []
      else if starts 91 s then
        let r := skip_ws (tl s) in
        if starts 93 r then Scanned (JArr []) (tl r)
        else scan_items n r []
      else scan_literal s
  end
with scan_members (fuel : nat) (s : str) (acc : list (str * value))
       {struct fuel} : scan value :=
  match fuel with
  | O => Exhausted
  | S n =>
      if negb (starts 34 s) then Malformed else
      match scan_string (tl s) [] with
      | Scanned k r1 =>
          let r1 := skip_ws r1 in
          if negb (starts 58 r1) then Malformed else
          match scan_once n (skip_ws (tl r1)) with
          | Scanned v r2 =>
              let r2 := skip_ws r2 in
              if starts 125 r2 then Scanned (JObj (acc ++ [(k, v)])) (tl r2)
              else if starts 44 r2
              then scan_members n (skip_ws (tl r2)) (acc ++ [(k, v)])
              else Malformed
          | Malformed => Malformed
          | Undecodable => Undecodable
          | Exhausted => Exhausted
          end
      | Malformed => Malformed
      | Undecodable => Undecodable
      | Exhausted => Exhausted
      end
  end
with scan_items (fuel : nat) (s : str) (acc : list value)
       {struct fuel} : scan value :=
  match fuel with
  | O => Exhausted
  | S n =>
      match scan_once n s with
      | Scanned v r1 =>
          let r1 := skip_ws r1 in
          if starts 93 r1 then Scanned (JArr (acc ++ [v])) (tl r1)
          else if starts 44 r1 then scan_items n (skip_ws (tl r1)) (acc ++ [v])
          else Malformed
      | Malformed => Malformed
      | Undecodable => Undecodable
      | Exhausted => Exhausted
      end
  end.

(** [JSONDecoder.decode(text)]: one value between optional white space,
    nothing after it.  Two nested scans consume at least one character,
    hence the budget of twice the length of the text plus two. *)
Definition decode (text : str) : scan value :=
  match scan_once (2 * List.length text + 2) (skip_ws text) with
  | Scanned v rest =>
      match skip_ws rest with
      | [] => Scanned v []
      | _ :: _ => Malformed
      end
  | Malformed => Malformed
  | Undecodable => Undecodable
  | Exhausted => Exhausted
  end.

(** The text of a body: [s.decode(detect_encoding(s), 'surrogatepass')]. *)
Definition text_of (body : bytes) : option str :=
  let b := map Byte.to_N body in
  Codec.decode (Codec.detect_encoding b) b.

(** [json.loads(body)] for a body of bytes. *)
Definition loads (body : bytes) : scan value :=
  match text_of body with
  | Some text => decode text
  | None => Undecodable
  end.

(** The interpreter sets two limits to the decoder that [decode] leaves
    out: an integer literal longer than [sys.get_int_max_str_digits()]
    digits (4300 unless configured) raises [ValueError], and arrays and
    objects nested beyond what the recursion limit leaves raise
    [RecursionError].  The properties of the program on an arbitrary body
    are stated for documents within the two bounds below, a nesting that
    the default recursion limit of 1000 allows many times over. *)
Definition int_max_str_digits : nat := 4300.
Definition nesting_bound : nat := 100.

(** How deep the arrays and objects of a value nest. *)
Fixpoint depth (v : value) : nat :=
  match v with
  | JArr items => S (fold_right (fun x n => Nat.max (depth x) n) 0 items)
  | JObj members =>
      S (fold_right (fun kv n => let '(_, x) := kv in Nat.max (depth x) n)
                    0 members)
  | _ => 0
  end.

(** The number of digits of the longest integer of a value. *)
Fixpoint digits (v : value) : nat :=
  match v with
  | JInt z => List.length (of_int (Z.abs z))
  | JArr items => fold_right (fun x n => Nat.max (digits x) n) 0 items
  | JObj members =>
      fold_right (fun kv n => let '(_, x) := kv in Nat.max (digits x) n)
                 0 members
  | _ => 0
  end.

(** A decoded document within the two limits. *)
Definition modest (v : value) : bool :=
  (depth v <=? nesting_bound) && (digits v <=? int_max_str_digits).

(** The same on a text that may be no document: the number of its
    opening brackets and braces, which bounds any nesting, and the length
    of its longest run of digits. *)
Definition openings (s : str) : nat :=
  List.length (filter (fun c => (c =? 91) || (c =? 123))%N s).

Fixpoint longest_digits (s : str) (run : nat) : nat :=
  match s with
  | [] => run
  | c :: r =>
      if is_digit c then longest_digits r (S run)
      else Nat.max run (longest_digits r 0)
  end.

Definition modest_text (s : str) : bool :=
  (openings s <=? nesting_bound)
  && (longest_digits s 0 <=? int_max_str_digits).

End Json.
Import Json.

(* ===================================================================== *)
(** ** Console markup *)
(* ===================================================================== *)

(** What [console.print] consults of the rich library besides the syntax
    of its markup: the normal form of a style definition
    ([Style.normalize]), and whether the parameters of a handler tag can
    be evaluated ([ast.literal_eval]).  Both are tables of the installed
    library; no property below depends on what they hold. *)
Record styles : Type := {
  normalize : str -> str;
  evaluates : str -> bool
}.

Module Markup.

(** A tag: [name] or [name=parameters] between brackets. *)
Record tag : Type := { tag_name : str; tag_parameters : option str }.

(** The first character of a tag: a small letter, a hash, a slash or an
    at sign. *)
Definition tag_start (c : char) : bool :=
  (((97 <=? c) && (c <=? 122)) || (c =? 35) || (c =? 47) || (c =? 64))%N.

(** The text of a tag after its first character: up to the first closing
    bracket, when no opening bracket comes before it. *)
Fixpoint tag_rest (s : str) : option str :=
  match s with
  | [] => None
  | c :: r =>
      if (c =? 93)%N then Some []
      else if (c =? 91)%N then None
      else option_map (cons c) (tag_rest r)
  end.

(** The text between the brackets, when an opening bracket right before
    [s] opens a tag. *)
Definition tag_text (s : str) : option str :=
  match s with
  | c :: r => if tag_start c then option_map (cons c) (tag_rest r) else None
  | [] => None
  end.

(** [text.partition('=')]: the name, and the parameters when the text has
    an equals sign. *)
Fixpoint partition_equals (s : str) : str * option str :=
  match s with
  | [] => ([], None)
  | c :: r =>
      if (c =? 61)%N then ([], Some r)
      else let (n, p) := partition_equals r in (c :: n, p)
  end.

Definition make_tag (text : str) : tag :=
  let (n, p) := partition_equals text in
  {| tag_name := n; tag_parameters := p |}.

(** The tags of a text, in order ([_parse]).  [escapes] counts the
    backslashes right before the current character; a tag after an odd
    number of them is plain text.  [skip] is the number of characters of
    a tag just read that are still to pass. *)
Fixpoint tags (s : str) (escapes skip : nat) : list tag :=
  match s with
  | [] => []
  | c :: r =>
      match skip with
      | S k => tags r 0 k
      | O =>
          if (c =? 92)%N then tags r (S escapes) 0
          else if (c =? 91)%N then
            match tag_text r with
            | Some text =>
                (if Nat.even escapes then [make_tag text] else [])
                  ++ tags r 0 (S (List.length text))
            | None => tags r 0 0
            end
          else tags r 0 0
      end
  end.

(** [pop_style]: the open tag of that name nearest to the top of the
    stack, and the stack without it. *)
Fixpoint pop_style (n : str) (stack : list tag) : option (tag * list tag) :=
  match stack with
  | [] => None
  | t :: r =>
      if PyStr.eqb (tag_name t) n then Some (t, r)
      else match pop_style n r with
           | Some (x, r') => Some (x, t :: r')
           | None => None
           end
  end.

(** Closing a handler tag evaluates its parameters, when it has some. *)
Definition closes (lib : styles) (open_tag : tag) : bool :=
  if starts 64 (tag_name open_tag) then
    match tag_parameters open_tag with
    | Some (c :: p) => evaluates lib (c :: p)
    | _ => true
    end
  else true.

(** The loop of [render] over the tags, with the stack of open tags (top
    first): a closing tag needs an open tag to close, by its normalized
    name or, for the bare slash, the last one opened; tags left open are
    closed at the end of the text. *)
Fixpoint balanced (lib : styles) (ts : list tag) (stack : list tag) : bool :=
  match ts with
  | [] => true
  | t :: r =>
      if starts 47 (tag_name t) then
        match (match strip (tl (tag_name t)) with
               | [] => match stack with
                       | x :: below => Some (x, below)
                       | [] => None
                       end
               | c :: n => pop_style (normalize lib (c :: n)) stack
               end) with
        | Some (open_tag, stack') =>
            closes lib open_tag && balanced lib r stack'
        | None => false
        end
      else
        balanced lib r
          ({| tag_name := normalize lib (tag_name t);
              tag_parameters := tag_parameters t |} :: stack)
  end.

(** A text without opening bracket: [render] does not look for tags. *)
Definition plain (s : str) : bool := forallb (fun c => negb (c =? 91)%N) s.

(** Whether [render] accepts the text; it raises [MarkupError] when not. *)
Definition renders (lib : styles) (markup : str) : bool :=
  if plain markup then true else balanced lib (tags markup 0 0) [].

End Markup.

Definition plain := Markup.plain.

(* ===================================================================== *)
(** ** Exceptions, the remote service, events *)
(* ===================================================================== *)

Inductive exn : Type :=
| ClientError (msg : str)        (* botocore.exceptions.ClientError *)
| BotoCoreError (msg : str)      (* any other failure of a remote call *)
| FileNotFoundError (path : str)
| ValueError
| KeyError (key : str)
| TypeError
| JSONDecodeError
| UnicodeDecodeError
| MarkupError.                   (* rich.errors.MarkupError *)

Definition is_ClientError (e : exn) : bool :=
  match e with ClientError _ => true | _ => false end.

(** One entry of ['VaultList'], with the fields the program reads. *)
Record vault_info : Type := {
  NumberOfArchives : Z;
  SizeInBytes : Z;
  VaultName : str
}.

(** The answer of [initiate_job]. *)
Record job_info : Type := { jobId : str; location : str }.

Inductive request : Type :=
| ListVaults (limit : str) (marker : option str)
| InitiateJob (vaultName : str) (jobType : str)
| GetJobOutput (vaultName : str) (jobId : str)
| DeleteArchive (vaultName : str) (archiveId : str).

Inductive response : Type :=
| Vaults (VaultList : list vault_info) (Marker : option str)
| JobStarted (j : job_info)
| JobOutput (body : bytes)
| Deleted.

Inductive reply (A : Type) : Type :=
| Answer (a : A)
| Failure (e : exn).
Arguments Answer {A} a.
Arguments Failure {A} e.

Inductive log_level : Type := DEBUG | INFO.

Inductive event : Type :=
| ECall (req : request) (rep : reply response)   (* a remote call, answered *)
| EPrint (text : str) (style : option str)       (* console.print *)
| ELogConfig (level : log_level)                 (* logging.basicConfig *)
| ELogError (e : exn)                            (* logging.error *)
| EOpen (path : str)
| ERead (line : str)
| EClose (path : str).

Definition trace := list event.

(** The four calls of the Glacier client.  Each sees the trace of the run
    so far, so the service may change its answers over time.  The answer
    of [get_job_output] is given as the bytes that reading its body
    yields. *)
Record glacier_client : Type := {
  api_list_vaults : trace -> str -> option str -> reply (list vault_info * option str);
  api_initiate_job : trace -> str -> str -> reply job_info;
  api_get_job_output : trace -> str -> str -> reply bytes;
  api_delete_archive : trace -> str -> str -> reply unit
}.

(** The environment of a run: the remote service, the text files of the
    working directory (decoded; [None] when the file does not exist) and
    the style tables of the console library. *)
Record world : Type := {
  glacier : glacier_client;
  files : str -> option str;
  rich : styles
}.

(* ===================================================================== *)
(** ** The monad of the program: a trace and exceptions *)
(* ===================================================================== *)

Inductive outcome (A : Type) : Type :=
| Return (a : A)
| Raise (e : exn)
| Diverge.                      (* the loop budget is used up *)
Arguments Return {A} a.
Arguments Raise {A} e.
Arguments Diverge {A}.

Definition M (A : Type) : Type := trace -> outcome A * trace.

Definition ret {A} (a : A) : M A := fun t => (Return a, t).

Definition bind {A B} (m : M A) (k : A -> M B) : M B := fun t =>
  match m t with
  | (Return a, t') => k a t'
  | (Raise e, t') => (Raise e, t')
  | (Diverge, t') => (Diverge, t')
  end.

Definition raise {A} (e : exn) : M A := fun t => (Raise e, t).
Definition diverge {A} : M A := fun t => (Diverge, t).
Definition emit (e : event) : M unit := fun t => (Return tt, t ++ [e]).

Declare Scope prog_scope.
Delimit Scope prog_scope with prog.
Notation "x <- m ;; k" := (bind m (fun x => k))
  (at level 61, m at next level, right associativity) : prog_scope.
Notation "m ;; k" := (bind m (fun _ => k))
  (at level 61, right associativity) : prog_scope.
Local Open Scope prog_scope.

(** [try: body except <the exceptions h handles>: h e] *)
Definition try_except {A} (body : M A) (h : exn -> option (M A)) : M A :=
  fun t =>
    match body t with
    | (Raise e, t') =>
        match h e with
        | Some handler => handler t'
        | None => (Raise e, t')
        end
    | r => r
    end.

(** [for x in l: body x] *)
Fixpoint for_each {A} (l : list A) (body : A -> M unit) : M unit :=
  match l with
  | [] => ret tt
  | x :: r => body x ;; for_each r body
  end.

Definition logging_error (e : exn) : M unit := emit (ELogError e).

(** A remote call: ask the service, record the exchange, return or raise. *)
Definition remote {A} (req : request) (ask : trace -> reply A)
    (shown : A -> response) : M A := fun t =>
  match ask t with
  | Answer a => (Return a, t ++ [ECall req (Answer (shown a))])
  | Failure e => (Raise e, t ++ [ECall req (Failure e)])
  end.

(* ===================================================================== *)
(** ** Reading a text file line by line *)
(* ===================================================================== *)

(** Text mode translates every line ending to a line feed. *)
Fixpoint universal_newlines (s : str) : str :=
  match s with
  | 13%N :: 10%N :: r => 10%N :: universal_newlines r
  | 13%N :: r => 10%N :: universal_newlines r
  | c :: r => c :: universal_newlines r
  | [] => []
  end.

(** The lines, each with its line feed; the last one may lack it. *)
Fixpoint split_lines (cur : str) (s : str) : list str :=
  match s with
  | [] => match cur with [] => [] | _ => [cur] end
  | c :: r => if (c =? 10)%N then (cur ++ [c]) :: split_lines [] r
              else split_lines (cur ++ [c]) r
  end.

Definition readlines (text : str) : list str :=
  split_lines [] (universal_newlines text).

(** [with open(path) as fd: body fd].  [EOpen] records the call of [open],
    which raises when the file does not exist; an opened file is closed
    when the block is left, whatever its outcome; [fd] is the lines still
    to be read. *)
Definition with_open {A} (w : world) (path : str) (body : list str -> M A)
  : M A := fun t =>
  match files w path with
  | None => (Raise (FileNotFoundError path), t ++ [EOpen path])
  | Some text =>
      let (r, t') := body (readlines text) (t ++ [EOpen path]) in
      (r, t' ++ [EClose path])
  end.

(** [for line in fd: acc = body line acc]: each turn reads one line. *)
Fixpoint for_lines {S} (fd : list str) (body : str -> S -> M S) (acc : S)
  : M S :=
  match fd with
  | [] => ret acc
  | line :: r => emit (ERead line) ;; acc' <- body line acc ;; for_lines r body acc'
  end.

(* ===================================================================== *)
(** ** Reading decoded JSON the way the f-strings of [main] do *)
(* ===================================================================== *)

(** [v[key]] with a string key. *)
Definition subscript (v : value) (key : str) : M value :=
  match v with
  | JObj members =>
      match Json.get key members with
      | Some x => ret x
      | None => raise (KeyError key)
      end
  | _ => raise TypeError
  end.

(** [for x in v]: the items of a list, the characters of a string, the keys
    of a dict; nothing else can be iterated. *)
Definition iterate (v : value) : M (list value) :=
  match v with
  | JArr items => ret items
  | JStr s => ret (map (fun c => JStr [c]) s)
  | JObj members => ret (map JStr (Json.keys members []))
  | _ => raise TypeError
  end.

(** [format(v, '<w>d')] *)
Definition format_d (w : nat) (v : value) : M str :=
  match v with
  | JInt z => ret (fmt_d w z)
  | JBool b => ret (fmt_d w (if b then 1 else 0))
  | JFloat _ | JStr _ => raise ValueError
  | JNull | JArr _ | JObj _ => raise TypeError
  end.

Section Program.

(** [repr] of a float, a list or a dict, which [str] falls back on; no
    property below depends on what it prints. *)
Variable py_repr : value -> str.

Variable w : world.

(** [console.print(text, style=style)].  The console reads the markup of
    the text first: when that fails the call raises [MarkupError] and the
    console has got nothing; [EPrint] records a call that returned. *)
Definition print (text : str) (style : option str) : M unit :=
  if Markup.renders (rich w) text then emit (EPrint text style)
  else raise MarkupError.

(** [format(v, '')], that is [str(v)]. *)
Definition format_default (v : value) : str :=
  match v with
  | JStr s => s
  | JInt z => of_int z
  | JBool true => py "True"
  | JBool false => py "False"
  | JNull => py "None"
  | _ => py_repr v
  end.

(** [json.loads(body)] on the bytes read from the response. *)
Definition json_loads (body : bytes) : M value :=
  match Json.loads body with
  | Scanned v _ => ret v
  | Malformed => raise JSONDecodeError
  | Undecodable => raise UnicodeDecodeError
  | Exhausted => diverge
  end.

Definition VALID_ACTIONS : list str :=
  [py "list"; py "start_inventory"; py "get_inventory"; py "delete"].

(** [list_vaults(max_vaults, iter_marker)], lines 25-44. *)
Definition list_vaults (max_vaults : Z) (iter_marker : option str)
  : M (list vault_info * option str) :=
  let call limit marker :=
    remote (ListVaults limit marker)
           (fun t => api_list_vaults (glacier w) t limit marker)
           (fun a => Vaults (fst a) (snd a)) in
  vaults <- match iter_marker with
            | None => call (of_int max_vaults) None
            | Some m => call (of_int max_vaults) (Some m)
            end ;;
  let marker := snd vaults in
  ret (fst vaults, marker).

(** [retrieve_inventory(vault_name)], lines 47-69; [None] on error. *)
Definition retrieve_inventory (vault_name : str) : M (option job_info) :=
  let job_parms := py "inventory-retrieval" in
  try_except
    (response <- remote (InitiateJob vault_name job_parms)
                   (fun t => api_initiate_job (glacier w) t vault_name job_parms)
                   JobStarted ;;
     ret (Some response))
    (fun e => if is_ClientError e
              then Some (logging_error e ;; ret None)
              else None).

(** [retrieve_inventory_results(vault_name, job_id)], lines 72-90.  The
    result is a Python value: [JNull] is [None], both the error sentinel
    and what a body [null] decodes to. *)
Definition retrieve_inventory_results (vault_name job_id : str) : M value :=
  response <- try_except
                (r <- remote (GetJobOutput vault_name job_id)
                        (fun t => api_get_job_output (glacier w) t
                                    vault_name job_id)
                        JobOutput ;;
                 ret (Some r))
                (fun e => if is_ClientError e
                          then Some (logging_error e ;; ret None)
                          else None) ;;
  match response with
  | None => ret JNull
  | Some body => json_loads body
  end.

(** [delete_archive(vault_name, archive_id)], lines 93-108. *)
Definition delete_archive (vault_name archive_id : str) : M bool :=
  try_except
    (remote (DeleteArchive vault_name archive_id)
            (fun t => api_delete_archive (glacier w) t vault_name archive_id)
            (fun _ => Deleted) ;;
     ret true)
    (fun e => if is_ClientError e
              then Some (logging_error e ;; ret false)
              else None).

(** The command line after [parse_args]. *)
Record args : Type := {
  action : str;
  vault : str;
  debug : bool;
  filename : option str;
  job : option str
}.

Definition MARKER : str := py "Archive ID:".

(** [line.index('Archive ID:')]: [ValueError] when the marker is absent. *)
Definition index_marker (line : str) : M nat :=
  match find MARKER line with
  | Some i => ret i
  | None => raise ValueError
  end.

(** Lines 171-175: one turn of the scraping loop. *)
Definition scrape_line (line : str) (archive_ids : list str)
  : M (list str) :=
  try_except
    (i <- index_marker line ;;
     let key := strip (slice_from (i + 12) line) in
     ret (archive_ids ++ [key]))
    (fun e => match e with
              | ValueError => Some (ret archive_ids)
              | _ => None
              end).

(** Line 145. *)
Definition vault_row (v : vault_info) : str :=
  fmt_d 3 (NumberOfArchives v) ++ py "  " ++ fmt_d 12 (SizeInBytes v)
    ++ py "  " ++ VaultName v.

(** Lines 142-150, [while True]: print a page, stop when there is no
    marker, fetch the next page otherwise. *)
Fixpoint list_loop (fuel : nat) (max_vaults : Z) (vaults : list vault_info)
    (marker : option str) : M unit :=
  match fuel with
  | O => diverge
  | S n =>
      for_each vaults (fun v => print (vault_row v) None) ;;
      match marker with
      | None => ret tt
      | Some m =>
          page <- list_vaults max_vaults (Some m) ;;
          list_loop n max_vaults (fst page) (snd page)
      end
  end.

(** Lines 139-150, the action [list].  [main] runs it with the default
    page size of [list_vaults], 10. *)
Definition action_list (fuel : nat) (max_vaults : Z) : M unit :=
  page <- list_vaults max_vaults None ;;
  print (py "#     Size         Vault Name") None ;;
  print (py "------------------------------") None ;;
  list_loop fuel max_vaults (fst page) (snd page).

(** Lines 153-156, the action [start_inventory]. *)
Definition action_start_inventory (vault_name : str) : M unit :=
  response <- retrieve_inventory vault_name ;;
  match response with
  | Some r =>
      print (py "Initiated inventory-retrieval job for " ++ vault_name) None ;;
      print (py "Retrieval Job ID: " ++ jobId r) None
  | None => ret tt
  end.

(** Line 165. *)
Definition archive_row (archive : value) : M str :=
  size <- subscript archive (py "Size") ;;
  shown <- format_d 6 size ;;
  id <- subscript archive (py "ArchiveId") ;;
  ret (py "  Size: " ++ shown ++ py ",  Archive ID: " ++ format_default id).

(** Lines 158-167, the action [get_inventory]. *)
Definition action_get_inventory (vault_name : str) (job_id : option str)
  : M unit :=
  match job_id with
  | Some j =>
      inventory <- retrieve_inventory_results vault_name j ;;
      match inventory with
      | JNull => ret tt
      | _ =>
          arn <- subscript inventory (py "VaultARN") ;;
          print (py "Vault ARN: " ++ format_default arn) None ;;
          archives <- subscript inventory (py "ArchiveList") ;;
          items <- iterate archives ;;
          for_each items (fun archive =>
            row <- archive_row archive ;; print row None)
      end
  | None =>
      print (py "Job ID is required to get the inventory results")
            (Some (py "yellow"))
  end.

(** Lines 178-181: the deletion loop. *)
Definition delete_loop (vault_name : str) (archive_ids : list str) : M unit :=
  for_each archive_ids (fun archive_id =>
    success <- delete_archive vault_name archive_id ;;
    if success : bool
    then print (py "Deleted archive " ++ archive_id ++ py " from "
                ++ vault_name) None
    else ret tt).

(** Lines 169-181, the action [delete]. *)
Definition action_delete (vault_name : str) (archive_ids : list str)
  : M unit :=
  archive_ids <- with_open w (py "archive.txt")
                   (fun fd => for_lines fd scrape_line archive_ids) ;;
  delete_loop vault_name archive_ids.

(** Lines 183-184. *)
Definition action_unknown (name : str) : M unit :=
  print (py "ERROR: Action [bold]" ++ name ++ py "[/bold] is not recognized.")
        (Some (py "red")) ;;
  print (py "Valid actions are: [cyan]" ++ join (py " ") VALID_ACTIONS
         ++ py "[cyan]") None.

(** [main()], lines 111-184, from the parsed arguments on. *)
Definition main (fuel : nat) (a : args) : M unit :=
  let vault_name := vault a in
  let archive_ids := @nil str in
  let log_level := if debug a then DEBUG else INFO in
  emit (ELogConfig log_level) ;;
  if PyStr.eqb (action a) (py "list") then action_list fuel 10
  else if PyStr.eqb (action a) (py "start_inventory")
  then action_start_inventory vault_name
  else if PyStr.eqb (action a) (py "get_inventory")
  then action_get_inventory vault_name (job a)
  else if PyStr.eqb (action a) (py "delete")
  then action_delete vault_name archive_ids
  else action_unknown (action a).

(** The process: exit status 0 when [main] returns, 1 when an exception
    reaches the top level; no status while the run has not ended. *)
Definition run (fuel : nat) (a : args) : option Z * trace :=
  match main fuel a [] with
  | (Return _, t) => (Some 0%Z, t)
  | (Raise _, t) => (Some 1%Z, t)
  | (Diverge, t) => (None, t)
  end.

End Program.

(* ===================================================================== *)
(** ** Views of a trace *)
(* ===================================================================== *)

Definition is_call (e : event) : bool :=
  match e with ECall _ _ => true | _ => false end.

(** The remote calls of a run, in order. *)
Definition calls (t : trace) : list request :=
  flat_map (fun e => match e with ECall r _ => [r] | _ => [] end) t.

(** The texts the console was given, in order. *)
Definition printed (t : trace) : list str :=
  flat_map (fun e => match e with EPrint s _ => [s] | _ => [] end) t.

(** The errors logged, in order. *)
Definition logged (t : trace) : list exn :=
  flat_map (fun e => match e with ELogError x => [x] | _ => [] end) t.

(** The files opened, in order. *)
Definition opened (t : trace) : list str :=
  flat_map (fun e => match e with EOpen p => [p] | _ => [] end) t.

(** The continuation markers the [list_vaults] calls returned, in order. *)
Definition returned_markers (t : trace) : list (option str) :=
  flat_map (fun e => match e with
                     | ECall _ (Answer (Vaults _ m)) => [m]
                     | _ => []
                     end) t.

(** The archive IDs the scraping loop of [delete] collects from the lines
    of a log, as a function: what [for_lines fd scrape_line []] returns. *)
Definition extract_id (line : str) : option str :=
  match find MARKER line with
  | Some i => Some (strip (slice_from (i + 12) line))
  | None => None
  end.

Definition extract_ids (lines : list str) : list str :=
  flat_map (fun l => match extract_id l with Some k => [k] | None => [] end)
           lines.

(** A line feed, the end of a line of text. *)
Definition LF : str := [10%N].

(** The text of the remainder of [line] after the first occurrence of the
    marker, when it has one. *)
Definition after_marker (line : str) : option str :=
  match find MARKER line with
  | Some i => Some (slice_from (i + List.length MARKER) line)
  | None => None
  end.

(** The three lines of log the specification gives as its example. *)
Definition sample_log : str :=
  py "Size:     10,  Archive ID: xyz-001" ++ LF ++
  py "(garbage line with no marker)" ++ LF ++
  py "Size:     20,  Archive ID: xyz-002" ++ LF.

(* ===================================================================== *)
(** ** Services, worlds and inputs used below *)
(* ===================================================================== *)

Definition nospace (s : str) : bool := forallb (fun c => negb (isspace c)) s.

(** Style tables for the examples: every name is its own normal form and
    every parameter evaluates. *)
Definition no_styles : styles :=
  {| normalize := fun s => s; evaluates := fun _ => true |}.

(** A service that rejects every request. *)
Definition refusing_client : glacier_client :=
  let denied := ClientError (py "AccessDeniedException") in
  {| api_list_vaults := fun _ _ _ => Failure denied;
     api_initiate_job := fun _ _ _ => Failure denied;
     api_get_job_output := fun _ _ _ => Failure denied;
     api_delete_archive := fun _ _ _ => Failure denied |}.

Definition refusing_world : world :=
  {| glacier := refusing_client; files := fun _ => None; rich := no_styles |}.

(** The service never fails a deletion of one of [ids] other than by a
    [ClientError]. *)
Definition rejects_only (w : world) (vault_name : str) (ids : list str) : Prop :=
  forall id t, In id ids ->
    (exists u, api_delete_archive (glacier w) t vault_name id = Answer u)
    \/ (exists msg, api_delete_archive (glacier w) t vault_name id
                    = Failure (ClientError msg)).

(** A service that rejects the deletion of the archive [bad] and accepts
    every other one. *)
Definition picky_client : glacier_client :=
  {| api_list_vaults := fun _ _ _ => Answer ([], None);
     api_initiate_job := fun _ _ _ => Failure (ClientError (py "no jobs"));
     api_get_job_output := fun _ _ _ => Failure (ClientError (py "no jobs"));
     api_delete_archive := fun _ _ id =>
       if PyStr.eqb id (py "bad")
       then Failure (ClientError (py "ResourceNotFoundException"))
       else Answer tt |}.

Definition picky_world : world :=
  {| glacier := picky_client; files := fun _ => None; rich := no_styles |}.

Definition level_of (a : args) : log_level := if debug a then DEBUG else INFO.

(** The arguments of another invocation that differs only in [--filename]. *)
Definition with_filename (f : option str) (a : args) : args :=
  {| action := action a; vault := vault a; debug := debug a;
     filename := f; job := job a |}.

Definition is_file_event (e : event) : bool :=
  match e with EOpen _ | ERead _ | EClose _ => true | _ => false end.

(** The text of the example log in [archive.txt], a service that accepts
    every deletion. *)
Definition accepting_client : glacier_client :=
  {| api_list_vaults := fun _ _ _ => Answer ([], None);
     api_initiate_job := fun _ _ _ =>
       Answer {| jobId := py "job-1"; location := py "/jobs/job-1" |};
     api_get_job_output := fun _ _ _ => Answer (ascii_bytes (py "null"));
     api_delete_archive := fun _ _ _ => Answer tt |}.

Definition sample_world : world :=
  {| glacier := accepting_client;
     files := fun p => if PyStr.eqb p (py "archive.txt") then Some sample_log
                       else None;
     rich := no_styles |}.

Definition no_repr (v : value) : str := py "<repr>".

Definition delete_args : args :=
  {| action := py "delete"; vault := py "backups"; debug := false;
     filename := None; job := None |}.


(** An action that is a closing tag of console markup. *)
Definition markup_args : args :=
  {| action := py "[/x]"; vault := py "backups"; debug := false;
     filename := None; job := None |}.

Definition get_inventory_args (j : option str) : args :=
  {| action := py "get_inventory"; vault := py "backups"; debug := true;
     filename := None; job := j |}.

(** A double-quoted token of a JSON text. *)
Definition quoted (s : string) : str := (34%N :: py s) ++ [34%N].

(** The inventory of the specification's example, as the body of the job
    output: an object with the members VaultARN and ArchiveList. *)
Definition sample_inventory : bytes :=
  ascii_bytes
    (py "{" ++ quoted "VaultARN" ++ py ": " ++ quoted "arn:x" ++ py ", "
     ++ quoted "ArchiveList" ++ py ": [{" ++ quoted "Size" ++ py ": 5, "
     ++ quoted "ArchiveId" ++ py ": " ++ quoted "a1" ++ py "}]}").

(** A service whose job output is the example inventory. *)
Definition inventory_world : world :=
  {| glacier :=
       {| api_list_vaults := fun _ _ _ => Answer ([], None);
          api_initiate_job := fun _ _ _ =>
            Answer {| jobId := py "job-1"; location := py "/jobs/job-1" |};
          api_get_job_output := fun _ _ _ => Answer sample_inventory;
          api_delete_archive := fun _ _ _ => Answer tt |};
     files := fun _ => None; rich := no_styles |}.

(* ===================================================================== *)
(** ** A service that pages through a list of vaults *)
(* ===================================================================== *)

Section PagedService.

(** How the service writes a position of its list into a marker, and how
    it reads a marker back. *)
Variable enc : nat -> str.
Variable dec : str -> option nat.

(** The vaults of the account, in the order of the service. *)
Variable all_vaults : list vault_info.

(** The style tables of the console library. *)
Variable lib : styles.

(** The page at position [k] for a page size [n], with the marker of the
    next page when vaults remain after it. *)
Definition page (n k : nat) : list vault_info * option str :=
  (firstn n (skipn k all_vaults),
   if k + n <? List.length all_vaults then Some (enc (k + n)) else None).

(** Modelled from the spec: the paginated list operation of the remote
    service, which is outside the repository (section 4.1: at most
    page_size vaults per call, in a stable order; a continuation token when
    more vaults remain, none at the end of the list; page_size is a
    positive integer).  A limit that is not a positive number and a marker
    the service did not issue are rejected. *)
Definition paged_list_vaults (limit : str) (marker : option str)
  : reply (list vault_info * option str) :=
  let position := match marker with
                  | None => Some 0
                  | Some m => dec m
                  end in
  match to_int limit, position with
  | Some p, Some k =>
      if (0 <? p)%Z then Answer (page (Z.to_nat p) k)
      else Failure (ClientError (py "InvalidParameterValueException"))
  | _, _ => Failure (ClientError (py "InvalidParameterValueException"))
  end.

Definition paged_world : world :=
  {| glacier :=
       {| api_list_vaults := fun _ => paged_list_vaults;
          api_initiate_job := fun _ _ _ =>
            Failure (ClientError (py "ResourceNotFoundException"));
          api_get_job_output := fun _ _ _ =>
            Failure (ClientError (py "ResourceNotFoundException"));
          api_delete_archive := fun _ _ _ =>
            Failure (ClientError (py "ResourceNotFoundException")) |};
     files := fun _ => None; rich := lib |}.

(** The loop from the page at position [k] on: it prints the vaults from
    [k] to the end and stops after the first call that returns no marker. *)
Definition loop_from (p : Z) (k m : nat) (evs : trace) : Prop :=
  printed evs = map vault_row (skipn k all_vaults)
  /\ (match snd (page (Z.to_nat p) k) with
      | None => returned_markers evs = [] /\ calls evs = []
      | Some _ => exists ms, returned_markers evs = map Some ms ++ [None]
                             /\ List.length (calls evs) = S (List.length ms)
      end)
  /\ forall fuel t, m < fuel ->
       list_loop paged_world fuel p (fst (page (Z.to_nat p) k))
                 (snd (page (Z.to_nat p) k)) t
       = (Return tt, t ++ evs).

End PagedService.

(** A scan that ended, and left less text than it was given. *)
Definition shrinks {A} (res : scan A) (s : str) : Prop :=
  match res with
  | Scanned _ rest => List.length rest < List.length s
  | Malformed | Undecodable => True
  | Exhausted => False
  end.

(** A marker scheme for the examples: the position written in unary. *)
Definition unary (k : nat) : str := repeat 120%N k.

Definition read_unary (m : str) : option nat := Some (List.length m).

Definition three_vaults : list vault_info :=
  [{| NumberOfArchives := 4; SizeInBytes := 1024; VaultName := py "alpha" |};
   {| NumberOfArchives := 0; SizeInBytes := 0; VaultName := py "beta" |};
   {| NumberOfArchives := 12; SizeInBytes := 123456789; VaultName := py "gamma" |}].

(* ===================================================================== *)
(** ** Further views of a run, services and inputs *)
(* ===================================================================== *)

(** A decimal character: a digit or the minus sign. *)
Definition is_decimal_char (c : char) : bool :=
  (((48 <=? c) && (c <=? 57)) || (c =? 45))%N.

(** Line 165 as text, for an archive of size [z] and ID [id]. *)
Definition inventory_line (z : Z) (id : str) : str :=
  py "  Size: " ++ fmt_d 6 z ++ py ",  Archive ID: " ++ id.

(** A text without line feed and carriage return. *)
Definition one_line (s : str) : bool :=
  forallb (fun c => negb ((c =? 10) || (c =? 13))%N) s.

(** The text of a file that holds the lines [ls], each ended by a line
    feed. *)
Definition lines_text (ls : list str) : str :=
  List.concat (map (fun l => l ++ LF) ls).

(** The markers the [list_vaults] requests carried, in order. *)
Definition request_markers (t : trace) : list (option str) :=
  flat_map (fun e => match e with
                     | ECall (ListVaults _ m) _ => [m]
                     | _ => []
                     end) t.

(** The pages the [list_vaults] calls returned, in order. *)
Definition returned_pages (t : trace) : list (list vault_info) :=
  flat_map (fun e => match e with
                     | ECall _ (Answer (Vaults vs _)) => [vs]
                     | _ => []
                     end) t.

(** The two header lines of the list action, lines 140-141. *)
Definition list_header : list str :=
  [py "#     Size         Vault Name"; py "------------------------------"].

Definition list_args : args :=
  {| action := py "list"; vault := py "backups"; debug := false;
     filename := None; job := None |}.

(** A service whose list never ends: every page comes with a marker. *)
Definition endless_client : glacier_client :=
  {| api_list_vaults := fun _ _ _ =>
       Answer ([{| NumberOfArchives := 1; SizeInBytes := 1;
                   VaultName := py "again" |}], Some (py "more"));
     api_initiate_job := fun _ _ _ => Failure (ClientError (py "no"));
     api_get_job_output := fun _ _ _ => Failure (ClientError (py "no"));
     api_delete_archive := fun _ _ _ => Failure (ClientError (py "no")) |}.

Definition endless_world : world :=
  {| glacier := endless_client; files := fun _ => None; rich := no_styles |}.

(** What holds of the events of the page loop, for any service. *)
Definition loop_facts (p : Z) (vs : list vault_info) (marker : option str)
    (r : outcome unit) (evs : trace) : Prop :=
  calls evs = map (ListVaults (of_int p)) (request_markers evs)
  /\ request_markers evs
     = firstn (List.length (request_markers evs))
              (marker :: returned_markers evs)
  /\ (r <> Diverge ->
      forallb (fun v => plain (VaultName v))
              (vs ++ List.concat (returned_pages evs)) = true ->
      printed evs = map vault_row (vs ++ List.concat (returned_pages evs)))
  /\ (r = Return tt ->
      exists ms, marker :: returned_markers evs = map Some ms ++ [None]).

(** A decoded archive record with an integer size and a string ID. *)
Definition is_archive (item : value) (a : Z * str) : Prop :=
  exists members,
    item = JObj members
    /\ Json.get (py "Size") members = Some (JInt (fst a))
    /\ Json.get (py "ArchiveId") members = Some (JStr (snd a)).

(** A service that cannot be reached: every call fails, not with a
    [ClientError]. *)
Definition unreachable_client : glacier_client :=
  let down := BotoCoreError (py "EndpointConnectionError") in
  {| api_list_vaults := fun _ _ _ => Failure down;
     api_initiate_job := fun _ _ _ => Failure down;
     api_get_job_output := fun _ _ _ => Failure down;
     api_delete_archive := fun _ _ _ => Failure down |}.

Definition unreachable_world : world :=
  {| glacier := unreachable_client; files := fun _ => Some sample_log;
     rich := no_styles |}.

(** A service whose job output is [body]. *)
Definition output_world (body : bytes) : world :=
  {| glacier :=
       {| api_list_vaults := fun _ _ _ => Answer ([], None);
          api_initiate_job := fun _ _ _ =>
            Answer {| jobId := py "job-1"; location := py "/jobs/job-1" |};
          api_get_job_output := fun _ _ _ => Answer body;
          api_delete_archive := fun _ _ _ => Answer tt |};
     files := fun _ => None; rich := no_styles |}.

(** A service that loses the connection on the archive [boom] and accepts
    every other deletion. *)
Definition flaky_client : glacier_client :=
  {| api_list_vaults := fun _ _ _ => Answer ([], None);
     api_initiate_job := fun _ _ _ => Failure (ClientError (py "no jobs"));
     api_get_job_output := fun _ _ _ => Failure (ClientError (py "no jobs"));
     api_delete_archive := fun _ _ id =>
       if PyStr.eqb id (py "boom")
       then Failure (BotoCoreError (py "ConnectionClosedError"))
       else Answer tt |}.

Definition flaky_world : world :=
  {| glacier := flaky_client; files := fun _ => None; rich := no_styles |}.


(** The service answers a deletion by the archive ID alone: it accepts the
    IDs that [ok] holds of and rejects the others with a [ClientError]. *)
Definition deletes_by_id (w : world) (vault_name : str) (ok : str -> bool)
    (why : str -> str) : Prop :=
  forall t id,
    api_delete_archive (glacier w) t vault_name id
    = if ok id then Answer tt else Failure (ClientError (why id)).

(** The service gives every page of vaults with a marker for a next one;
    the names of its vaults hold no opening bracket. *)
Definition never_ends (w : world) : Prop :=
  forall t limit marker, exists vs m,
    api_list_vaults (glacier w) t limit marker = Answer (vs, Some m)
    /\ forallb (fun v => plain (VaultName v)) vs = true.

(** The action a remote call serves. *)
Definition call_action (r : request) : str :=
  match r with
  | ListVaults _ _ => py "list"
  | InitiateJob _ _ => py "start_inventory"
  | GetJobOutput _ _ => py "get_inventory"
  | DeleteArchive _ _ => py "delete"
  end.

(** An event that a run of the action [act] may show: a remote call of
    that action, a file event for [delete] only, any output. *)
Definition belongs (act : str) (e : event) : Prop :=
  match e with
  | ECall r _ => call_action r = act
  | EOpen _ | ERead _ | EClose _ => act = py "delete"
  | EPrint _ _ | ELogConfig _ | ELogError _ => True
  end.

(** The computation [m] only adds events of the action [act] to the
    trace. *)
Definition emits {A} (act : str) (m : M A) : Prop :=
  forall t, exists r evs, m t = (r, t ++ evs) /\ Forall (belongs act) evs.

(* ===================================================================== *)
(** ** Lemmas on strings *)
(* ===================================================================== *)

Lemma eqb_eq (a b : str) : PyStr.eqb a b = true <-> a = b.
Proof.
  revert b; induction a as [|x a IH]; intros [|y b]; simpl; split;
    try congruence; try reflexivity.
  - intros H. apply andb_true_iff in H as [Hx Hr].
    apply N.eqb_eq in Hx. apply IH in Hr. congruence.
  - intros [= -> ->]. rewrite N.eqb_refl. simpl. now apply IH.
Qed.

Lemma eqb_neq (a b : str) : PyStr.eqb a b = false <-> a <> b.
Proof.
  split.
  - intros H E. apply eqb_eq in E. congruence.
  - intros H. destruct (PyStr.eqb a b) eqn:E; [|reflexivity].
    apply eqb_eq in E. contradiction.
Qed.

Lemma lstrip_app_ws (pre s : str) :
  forallb isspace pre = true -> lstrip (pre ++ s) = lstrip s.
Proof.
  induction pre as [|c pre IH]; simpl; [reflexivity|].
  intros H. apply andb_true_iff in H as [Hc Hr]. now rewrite Hc, IH.
Qed.

Lemma lstrip_ws (s : str) : forallb isspace s = true -> lstrip s = [].
Proof.
  intros H. rewrite <- (app_nil_r s). now rewrite lstrip_app_ws.
Qed.

Lemma strip_cons_ws (c : char) (s : str) :
  isspace c = true -> strip (c :: s) = strip s.
Proof. intros H. unfold strip. simpl. now rewrite H. Qed.

Lemma lstrip_nospace (s : str) : nospace s = true -> lstrip s = s.
Proof.
  destruct s as [|c s]; simpl; [reflexivity|].
  intros H. apply andb_true_iff in H as [Hc _].
  apply negb_true_iff in Hc. now rewrite Hc.
Qed.

Lemma nospace_rev (s : str) : nospace s = true -> nospace (List.rev s) = true.
Proof.
  unfold nospace. rewrite !forallb_forall. intros H c Hc.
  apply H. now apply in_rev.
Qed.

Lemma allspace_rev (s : str) :
  forallb isspace s = true -> forallb isspace (List.rev s) = true.
Proof.
  rewrite !forallb_forall. intros H c Hc. apply H. now apply in_rev.
Qed.

Lemma lstrip_nospace_head_app (c : char) (id tail : str) :
  nospace (c :: id) = true -> lstrip ((c :: id) ++ tail) = (c :: id) ++ tail.
Proof.
  simpl. intros H. apply andb_true_iff in H as [Hc _].
  apply negb_true_iff in Hc. now rewrite Hc.
Qed.

(** Stripping a text without white space that is followed by white space
    only gives the text back. *)
Lemma strip_nospace_ws (id tail : str) :
  nospace id = true -> forallb isspace tail = true ->
  strip (id ++ tail) = id.
Proof.
  intros Hid Htail. unfold strip, rstrip.
  destruct id as [|c id].
  - simpl app. rewrite (lstrip_ws _ Htail). reflexivity.
  - rewrite (lstrip_nospace_head_app c id tail Hid).
    rewrite rev_app_distr, lstrip_app_ws by now apply allspace_rev.
    rewrite lstrip_nospace by now apply nospace_rev.
    apply rev_involutive.
Qed.

(* ===================================================================== *)
(** ** [json.loads] always ends *)
(* ===================================================================== *)

Lemma shrinks_weaken {A} (res : scan A) (s s' : str) :
  shrinks res s' -> List.length s' <= List.length s -> shrinks res s.
Proof. destruct res; simpl; auto; lia. Qed.

Lemma skip_ws_length (s : str) : List.length (skip_ws s) <= List.length s.
Proof.
  induction s as [|c s IH]; simpl; [lia|].
  destruct (is_ws c); simpl; lia.
Qed.

Lemma span_digits_length (s : str) :
  List.length (snd (span_digits s)) <= List.length s.
Proof.
  induction s as [|c s IH]; simpl; [lia|].
  destruct (is_digit c); [|simpl; lia].
  destruct (span_digits s) as [d r]. simpl in *. lia.
Qed.

Lemma tl_length (s : str) : List.length (tl s) <= List.length s.
Proof. destruct s; simpl; lia. Qed.

Lemma starts_tl (c : char) (s : str) :
  starts c s = true -> S (List.length (tl s)) = List.length s.
Proof. destruct s; simpl; [discriminate|reflexivity]. Qed.

Lemma startswith_length (p s : str) :
  startswith p s = true -> List.length p <= List.length s.
Proof.
  revert s; induction p as [|x p IH]; intros [|y s]; simpl; try lia;
    try discriminate.
  intros H. apply andb_true_iff in H as [_ H]. apply IH in H. lia.
Qed.

Lemma scan_string_shrinks (n : nat) :
  forall s acc, List.length s <= n -> shrinks (scan_string s acc) s.
Proof.
  induction n as [|n IH]; intros s acc Hn.
  - destruct s; [exact I|simpl in Hn; lia].
  - destruct s as [|c r]; [exact I|]. simpl in Hn.
    pose proof (IH r (acc ++ [c]) ltac:(lia)) as Hr.
    simpl scan_string.
    destruct (c =? 34)%N; [simpl; lia|].
    destruct (c =? 92)%N.
    + clear Hr. destruct r as [|e r1]; [exact I|]. simpl in Hn.
      destruct (e =? 117)%N.
      * destruct r1 as [|a [|b [|c1 [|d r2]]]]; try exact I. simpl in Hn.
        destruct (hex4 a b c1 d) as [u|]; [|exact I].
        pose proof (IH r2 (acc ++ [u]) ltac:(lia)) as H2.
        remember (scan_string r2 (acc ++ [u])) as X2 eqn:E2.
        assert (Hback : shrinks X2 (c :: e :: a :: b :: c1 :: d :: r2))
          by (apply (shrinks_weaken _ _ _ H2); simpl; lia).
        clear H2 E2.
        destruct r2 as [|x [|y [|a' [|b' [|c' [|d' r3]]]]]]; try exact Hback.
        simpl in Hn.
        match goal with |- context [match ?o with Some _ => _ | None => _ end] =>
          destruct o as [joined|] end; [|exact Hback].
        apply (shrinks_weaken _ _ _ (IH r3 (acc ++ [joined]) ltac:(lia))).
        simpl. lia.
      * destruct (simple_escape e) as [c'|]; [|exact I].
        apply (shrinks_weaken _ _ _ (IH r1 (acc ++ [c']) ltac:(lia))).
        simpl. lia.
    + destruct (c <? 32)%N; [exact I|].
      apply (shrinks_weaken _ _ _ Hr). simpl. lia.
Qed.

Lemma scan_number_shrinks (s : str) : shrinks (scan_number s) s.
Proof.
  unfold scan_number.
  set (s1 := if starts 45 s then tl s else s).
  assert (H1 : List.length s1 <= List.length s)
    by (subst s1; destruct (starts 45 s); [apply tl_length|lia]).
  destruct s1 as [|c r] eqn:Es1; [exact I|].
  destruct (is_digit c) eqn:Hc; [|exact I]. simpl negb. cbv iota.
  assert (Hip : forall ip rest,
            (if (c =? 48)%N then ([c], r) else span_digits (c :: r)) = (ip, rest) ->
            List.length rest <= List.length r).
  { intros ip rest. destruct (c =? 48)%N.
    - intros [= _ <-]. lia.
    - simpl. rewrite Hc. pose proof (span_digits_length r) as Hr.
      destruct (span_digits r) as [d r']. intros [= _ <-]. exact Hr. }
  destruct (if (c =? 48)%N then ([c], r) else span_digits (c :: r))
    as [ip rest] eqn:Eip.
  specialize (Hip ip rest eq_refl).
  assert (Hfrac : forall frac rest1,
            (if starts 46 rest
             then match span_digits (tl rest) with
                  | ([], _) => ([], rest)
                  | (d, r2) => (46%N :: d, r2)
                  end
             else ([], rest)) = (frac, rest1) ->
            List.length rest1 <= List.length rest).
  { intros frac rest1. destruct (starts 46 rest).
    - pose proof (span_digits_length (tl rest)) as Hr.
      pose proof (tl_length rest).
      destruct (span_digits (tl rest)) as [[|x d] r2]; intros [= _ <-];
        simpl in *; lia.
    - intros [= _ <-]. lia. }
  match goal with |- context [let (frac, rest1) := ?e in _] =>
    destruct e as [frac rest1] eqn:Ef end.
  specialize (Hfrac frac rest1 eq_refl).
  assert (Hex : forall ex rest2,
            (if starts 101 rest1 || starts 69 rest1
             then let r1 := tl rest1 in
                  let signed := starts 43 r1 || starts 45 r1 in
                  match span_digits (if signed then tl r1 else r1) with
                  | ([], _) => ([], rest1)
                  | (d, r3) =>
                      (firstn 1 rest1 ++ (if signed then firstn 1 r1 else []) ++ d, r3)
                  end
             else ([], rest1)) = (ex, rest2) ->
            List.length rest2 <= List.length rest1).
  { intros ex rest2. destruct (starts 101 rest1 || starts 69 rest1).
    - cbv zeta.
      match goal with |- context [span_digits ?x] =>
        assert (Hx : List.length x <= List.length rest1)
          by (pose proof (tl_length rest1); pose proof (tl_length (tl rest1));
              destruct (starts 43 (tl rest1) || starts 45 (tl rest1)); lia);
        pose proof (span_digits_length x) as Hr;
        destruct (span_digits x) as [[|y d] r3]
      end; intros E; inversion E; subst; simpl in *; lia.
    - intros [= _ <-]. lia. }
  match goal with |- context [let (ex, rest2) := ?e in _] =>
    destruct e as [ex rest2] eqn:Ee end.
  specialize (Hex ex rest2 eq_refl).
  assert (List.length rest2 < List.length s) by (simpl in H1; lia).
  destruct frac, ex; simpl; assumption.
Qed.

Lemma scan_literal_shrinks (s : str) : shrinks (scan_literal s) s.
Proof.
  unfold scan_literal.
  let rec go :=
    lazymatch goal with
    | |- shrinks (if startswith ?p s then _ else _) s =>
        let E := fresh "E" in
        destruct (startswith p s) eqn:E;
        [apply startswith_length in E; simpl in E;
         unfold shrinks; rewrite length_skipn; lia
        |clear E; go]
    | |- _ => apply scan_number_shrinks
    end in go.
Qed.

Lemma scan_fuel (fuel : nat) :
  (forall s, 2 * List.length s + 1 <= fuel -> shrinks (scan_once fuel s) s)
  /\ (forall s acc, 2 * List.length s + 1 <= fuel ->
        shrinks (scan_members fuel s acc) s)
  /\ (forall s acc, 2 * List.length s + 2 <= fuel ->
        shrinks (scan_items fuel s acc) s).
Proof.
  induction fuel as [|n (IHo & IHm & IHi)].
  - repeat split; intros; lia.
  - split; [|split].
    + intros s Hs. simpl scan_once.
      destruct (starts 34 s) eqn:E1.
      { pose proof (scan_string_shrinks _ (tl s) [] (le_n _)) as H.
        apply starts_tl in E1.
        destruct (scan_string (tl s) []); simpl in *; auto; lia. }
      destruct (starts 123 s) eqn:E2.
      { apply starts_tl in E2. pose proof (skip_ws_length (tl s)).
        cbv zeta. destruct (starts 125 (skip_ws (tl s))) eqn:E3.
        - apply starts_tl in E3. simpl. lia.
        - apply (shrinks_weaken _ _ (skip_ws (tl s))); [apply IHm|]; lia. }
      destruct (starts 91 s) eqn:E3.
      { apply starts_tl in E3. pose proof (skip_ws_length (tl s)).
        cbv zeta. destruct (starts 93 (skip_ws (tl s))) eqn:E4.
        - apply starts_tl in E4. simpl. lia.
        - apply (shrinks_weaken _ _ (skip_ws (tl s))); [apply IHi|]; lia. }
      apply scan_literal_shrinks.
    + intros s acc Hs. simpl scan_members.
      destruct (starts 34 s) eqn:E1; [|exact I]. simpl negb. cbv iota.
      apply starts_tl in E1.
      pose proof (scan_string_shrinks _ (tl s) [] (le_n _)) as H.
      destruct (scan_string (tl s) []) as [k r1| | |];
        [|exact I|exact I|exact H].
      simpl in H. cbv zeta. pose proof (skip_ws_length r1).
      destruct (starts 58 (skip_ws r1)) eqn:E2; [|exact I]. simpl negb. cbv iota.
      apply starts_tl in E2.
      pose proof (skip_ws_length (tl (skip_ws r1))).
      pose proof (IHo (skip_ws (tl (skip_ws r1))) ltac:(lia)) as Hv.
      destruct (scan_once n (skip_ws (tl (skip_ws r1)))) as [v r2| | |];
        [|exact I|exact I|exact Hv].
      simpl in Hv. pose proof (skip_ws_length r2).
      destruct (starts 125 (skip_ws r2)) eqn:E3.
      { apply starts_tl in E3. simpl. lia. }
      destruct (starts 44 (skip_ws r2)) eqn:E4; [|exact I].
      apply starts_tl in E4. pose proof (skip_ws_length (tl (skip_ws r2))).
      apply (shrinks_weaken _ _ (skip_ws (tl (skip_ws r2)))); [apply IHm|]; lia.
    + intros s acc Hs. simpl scan_items.
      pose proof (IHo s ltac:(lia)) as Hv.
      destruct (scan_once n s) as [v r1| | |]; [|exact I|exact I|exact Hv].
      simpl in Hv. cbv zeta. pose proof (skip_ws_length r1).
      destruct (starts 93 (skip_ws r1)) eqn:E3.
      { apply starts_tl in E3. simpl. lia. }
      destruct (starts 44 (skip_ws r1)) eqn:E4; [|exact I].
      apply starts_tl in E4. pose proof (skip_ws_length (tl (skip_ws r1))).
      apply (shrinks_weaken _ _ (skip_ws (tl (skip_ws r1)))); [apply IHi|]; lia.
Qed.

(** The decoder always ends: it returns a value or raises. *)
Lemma decode_total (text : str) : Json.decode text <> Exhausted.
Proof.
  unfold Json.decode.
  pose proof (skip_ws_length text) as Hw.
  pose proof (proj1 (scan_fuel (2 * List.length text + 2)) (skip_ws text)
                ltac:(lia)) as H.
  destruct (scan_once (2 * List.length text + 2) (skip_ws text)) as [v r| | |];
    [|discriminate|discriminate|exact (fun _ => H)].
  destruct (skip_ws r); discriminate.
Qed.

Lemma loads_total (body : bytes) : Json.loads body <> Exhausted.
Proof.
  unfold Json.loads. destruct (Json.text_of body);
    [apply decode_total|discriminate].
Qed.

Lemma json_loads_ends (body : bytes) (t : trace) :
  fst (json_loads body t) <> Diverge.
Proof.
  unfold json_loads. pose proof (loads_total body) as H.
  destruct (Json.loads body); simpl; congruence.
Qed.

(* ===================================================================== *)
(** ** Console output *)
(* ===================================================================== *)

Lemma py_cons (a : ascii) (s : string) :
  py (String a s) = N_of_ascii a :: py s.
Proof. reflexivity. Qed.

Lemma uint_decimal (d : Decimal.uint) :
  forallb is_decimal_char (py (NilEmpty.string_of_uint d)) = true.
Proof. induction d; simpl NilEmpty.string_of_uint; rewrite ?py_cons; simpl; auto. Qed.

Lemma of_int_decimal (z : Z) : forallb is_decimal_char (of_int z) = true.
Proof.
  unfold of_int. destruct (Z.to_int z) as [d|d]; simpl NilZero.string_of_int.
  - destruct d; try apply uint_decimal. reflexivity.
  - rewrite py_cons. simpl. destruct d; try apply uint_decimal. reflexivity.
Qed.

Lemma forallb_impl {A} (P Q : A -> bool) (l : list A) :
  (forall x, P x = true -> Q x = true) ->
  forallb P l = true -> forallb Q l = true.
Proof.
  intros HPQ. rewrite !forallb_forall. auto.
Qed.

Lemma forallb_repeat {A} (P : A -> bool) (x : A) (n : nat) :
  P x = true -> forallb P (repeat x n) = true.
Proof. intros H. induction n; simpl; [reflexivity|]. now rewrite H. Qed.

(** A property of the space and of every decimal character holds all along
    a formatted integer. *)
Lemma fmt_d_all (P : char -> bool) (w : nat) (z : Z) :
  P 32%N = true -> (forall c, is_decimal_char c = true -> P c = true) ->
  forallb P (fmt_d w z) = true.
Proof.
  intros Hsp Hdec. unfold fmt_d. cbv zeta. rewrite forallb_app.
  rewrite (forallb_repeat _ _ _ Hsp).
  exact (forallb_impl _ _ _ Hdec (of_int_decimal z)).
Qed.

Lemma decimal_not (k : N) (c : char) :
  is_decimal_char k = false -> is_decimal_char c = true -> negb (c =? k)%N = true.
Proof.
  intros Hk Hc. apply negb_true_iff. apply N.eqb_neq. intros ->. congruence.
Qed.

Lemma print_renders (w : world) (text : str) (style : option str) (t : trace) :
  Markup.renders (rich w) text = true ->
  print w text style t = (Return tt, t ++ [EPrint text style]).
Proof. intros H. unfold print. now rewrite H. Qed.

Lemma print_plain (w : world) (text : str) (style : option str) (t : trace) :
  plain text = true ->
  print w text style t = (Return tt, t ++ [EPrint text style]).
Proof.
  intros H. apply print_renders. unfold Markup.renders.
  change (Markup.plain text) with (plain text). now rewrite H.
Qed.

Lemma print_refused (w : world) (text : str) (style : option str) (t : trace) :
  Markup.renders (rich w) text = false ->
  print w text style t = (Raise MarkupError, t).
Proof. intros H. unfold print. now rewrite H. Qed.

(** A call of [print] adds its text to the trace or raises. *)
Lemma print_cases (w : world) (text : str) (style : option str) (t : trace) :
  print w text style t = (Return tt, t ++ [EPrint text style])
  \/ print w text style t = (Raise MarkupError, t).
Proof.
  destruct (Markup.renders (rich w) text) eqn:E;
    [left; now apply print_renders|right; now apply print_refused].
Qed.

Lemma plain_app (a b : str) : plain (a ++ b) = plain a && plain b.
Proof. apply forallb_app. Qed.

Lemma plain_fmt_d (n : nat) (z : Z) : plain (fmt_d n z) = true.
Proof.
  apply fmt_d_all; [reflexivity|]. intros c Hc. now apply decimal_not.
Qed.

(* ===================================================================== *)
(** ** The scraping loop of [delete] *)
(* ===================================================================== *)

Lemma scrape_line_spec (line : str) (ids : list str) (t : trace) :
  scrape_line line ids t =
  (Return (ids ++ match extract_id line with Some k => [k] | None => [] end), t).
Proof.
  unfold scrape_line, try_except, bind, index_marker, extract_id.
  destruct (find MARKER line) as [i|]; simpl.
  - reflexivity.
  - now rewrite app_nil_r.
Qed.

Lemma scrape_loop_spec (fd : list str) (acc : list str) (t : trace) :
  for_lines fd scrape_line acc t =
  (Return (acc ++ extract_ids fd), t ++ map ERead fd).
Proof.
  revert acc t; induction fd as [|line fd IH]; intros acc t; simpl.
  - unfold ret. now rewrite !app_nil_r.
  - unfold bind at 1. unfold emit. unfold bind at 1.
    rewrite scrape_line_spec, IH.
    now rewrite <- !app_assoc.
Qed.

Lemma contains_extract (line : str) :
  contains MARKER line = false -> extract_id line = None.
Proof.
  unfold contains, extract_id. now destruct (find MARKER line).
Qed.

Lemma extract_ids_marked (lines : list str) :
  map Some (extract_ids lines) =
  map extract_id (filter (contains MARKER) lines).
Proof.
  induction lines as [|l lines IH]; simpl; [reflexivity|].
  unfold contains, extract_id at 1.
  destruct (find MARKER l) as [i|] eqn:E; simpl.
  - rewrite IH. f_equal. unfold extract_id. now rewrite E.
  - exact IH.
Qed.

Lemma skipn_succ_tl {A} (n : nat) (l : list A) :
  skipn (S n) l = tl (skipn n l).
Proof.
  revert l; induction n as [|n IH]; intros [|x l]; try reflexivity.
  change (skipn (S n) l = tl (skipn n l)). apply IH.
Qed.

Lemma marker_length : List.length MARKER = 11.
Proof. reflexivity. Qed.

Lemma extract_after (line rest : str) :
  after_marker line = Some rest -> extract_id line = Some (strip (tl rest)).
Proof.
  unfold after_marker, extract_id, slice_from.
  destruct (find MARKER line) as [i|]; [|discriminate].
  rewrite marker_length. intros [= <-].
  replace (i + 12) with (S (i + 11)) by lia.
  now rewrite skipn_succ_tl.
Qed.

Lemma sample_lines :
  readlines sample_log =
  [py "Size:     10,  Archive ID: xyz-001" ++ LF;
   py "(garbage line with no marker)" ++ LF;
   py "Size:     20,  Archive ID: xyz-002" ++ LF].
Proof. vm_compute. reflexivity. Qed.

Lemma sample_ids : extract_ids (readlines sample_log) = [py "xyz-001"; py "xyz-002"].
Proof. vm_compute. reflexivity. Qed.

(** C1, as the code has it.  From any list of lines the scraping loop of
    the delete action returns, without raising, one ID per line that
    contains the marker, in the order of the lines; lines without the
    marker give nothing.  The ID is the remainder of the line after the
    marker AND the one character that follows it, stripped; it is the
    stripped remainder after the marker whenever that remainder is empty or
    begins with white space.  The three-line sample gives xyz-001 and
    xyz-002 in that order. *)
Theorem C1_extractor (lines : list str) (t : trace) :
  for_lines lines scrape_line [] t
    = (Return (extract_ids lines), t ++ map ERead lines)
  /\ map Some (extract_ids lines)
     = map extract_id (filter (contains MARKER) lines)
  /\ (forall line, contains MARKER line = false -> extract_id line = None)
  /\ (forall line rest, after_marker line = Some rest ->
        extract_id line = Some (strip (tl rest)))
  /\ (forall line rest, after_marker line = Some rest ->
        (rest = [] \/ exists c r, rest = c :: r /\ isspace c = true) ->
        extract_id line = Some (strip rest))
  /\ for_lines (readlines sample_log) scrape_line [] t
     = (Return [py "xyz-001"; py "xyz-002"],
        t ++ map ERead (readlines sample_log)).
Proof.
  repeat split.
  - apply scrape_loop_spec.
  - apply extract_ids_marked.
  - apply contains_extract.
  - apply extract_after.
  - intros line rest H [-> | (c & r & -> & Hc)].
    + now rewrite (extract_after _ _ H).
    + rewrite (extract_after _ _ H). simpl. now rewrite strip_cons_ws.
  - rewrite scrape_loop_spec, sample_ids. reflexivity.
Qed.

(** C1 at a concrete line: the text after the marker begins with a space. *)
Lemma C1_extractor_witness :
  after_marker (py "Archive ID: abc" ++ LF) = Some (py " abc" ++ LF)
  /\ extract_id (py "Archive ID: abc" ++ LF) = Some (py "abc").
Proof.
  assert (H : after_marker (py "Archive ID: abc" ++ LF) = Some (py " abc" ++ LF))
    by reflexivity.
  split; [exact H|].
  destruct (C1_extractor [] []) as (_ & _ & _ & _ & Hws & _).
  rewrite (Hws _ _ H).
  - reflexivity.
  - right. exists 32%N, (py "abc" ++ LF). split; reflexivity.
Defined.

(** C1 as the specification words it fails: the ID is not always the
    stripped remainder of the line after the marker.  On the line
    [Archive ID:xyz] the loop returns [yz]. *)
Lemma C1_counterexample :
  ~ (forall (line rest : str) (t : trace),
       after_marker line = Some rest ->
       for_lines [line] scrape_line [] t
       = (Return [strip rest], t ++ [ERead line])).
Proof.
  intros H.
  specialize (H (py "Archive ID:xyz") (py "xyz") [] eq_refl).
  vm_compute in H. discriminate H.
Qed.

(** C10.  On a line that contains the marker at first index [i], one turn
    of the scraping loop appends the text from index [i + 12] on, stripped:
    the marker has 11 characters and one more is skipped.  So when an ID
    without white space follows the colon directly and ends the line, the
    ID is appended without its first character. *)
Theorem C10_skips_twelve (line : str) (i : nat) (ids : list str) (t : trace) :
  find MARKER line = Some i ->
  List.length MARKER = 11
  /\ scrape_line line ids t
     = (Return (ids ++ [strip (slice_from (i + 12) line)]), t)
  /\ (forall (c : char) (id tail : str),
        slice_from (i + 11) line = (c :: id) ++ tail ->
        nospace (c :: id) = true -> forallb isspace tail = true ->
        scrape_line line ids t = (Return (ids ++ [id]), t)).
Proof.
  intros Hi. split; [reflexivity|].
  assert (Hrun : scrape_line line ids t
                 = (Return (ids ++ [strip (slice_from (i + 12) line)]), t)).
  { rewrite scrape_line_spec. unfold extract_id. now rewrite Hi. }
  split; [exact Hrun|].
  intros c id tail Hrest Hid Htail. rewrite Hrun.
  unfold slice_from in *.
  replace (i + 12) with (S (i + 11)) by lia.
  rewrite skipn_succ_tl, Hrest. simpl tl.
  rewrite strip_nospace_ws; [reflexivity| |exact Htail].
  simpl in Hid. now apply andb_true_iff in Hid as [_ Hid].
Qed.

(** C10 at the line [Archive ID:xyz]: the ID comes out as [yz]. *)
Lemma C10_skips_twelve_witness :
  find MARKER (py "Archive ID:xyz" ++ LF) = Some 0
  /\ scrape_line (py "Archive ID:xyz" ++ LF) [] [] = (Return [py "yz"], []).
Proof.
  assert (H : find MARKER (py "Archive ID:xyz" ++ LF) = Some 0) by reflexivity.
  split; [exact H|].
  destruct (C10_skips_twelve _ 0 [] [] H) as (_ & _ & Hid).
  apply (Hid 120%N (py "yz") LF); reflexivity.
Defined.

(* ===================================================================== *)
(** ** The four remote operations *)
(* ===================================================================== *)

Lemma remote_answer {A} (req : request) (ask : trace -> reply A)
    (shown : A -> response) (t : trace) (a : A) :
  ask t = Answer a ->
  remote req ask shown t = (Return a, t ++ [ECall req (Answer (shown a))]).
Proof. intros H. unfold remote. now rewrite H. Qed.

Lemma remote_failure {A} (req : request) (ask : trace -> reply A)
    (shown : A -> response) (t : trace) (e : exn) :
  ask t = Failure e ->
  remote req ask shown t = (Raise e, t ++ [ECall req (Failure e)]).
Proof. intros H. unfold remote. now rewrite H. Qed.

(** What [delete_archive] does, by the answer of the service. *)
Lemma delete_archive_cases (w : world) (vault_name id : str) (t : trace) :
  delete_archive w vault_name id t =
  let req := DeleteArchive vault_name id in
  match api_delete_archive (glacier w) t vault_name id with
  | Answer _ => (Return true, t ++ [ECall req (Answer Deleted)])
  | Failure (ClientError msg) =>
      (Return false,
       (t ++ [ECall req (Failure (ClientError msg))])
         ++ [ELogError (ClientError msg)])
  | Failure e => (Raise e, t ++ [ECall req (Failure e)])
  end.
Proof.
  unfold delete_archive, try_except, bind, remote.
  destruct (api_delete_archive (glacier w) t vault_name id) as [[]|e];
    [reflexivity|].
  destruct e; reflexivity.
Qed.

Lemma retrieve_inventory_cases (w : world) (vault_name : str) (t : trace) :
  retrieve_inventory w vault_name t =
  let kind := py "inventory-retrieval" in
  let req := InitiateJob vault_name kind in
  match api_initiate_job (glacier w) t vault_name kind with
  | Answer j => (Return (Some j), t ++ [ECall req (Answer (JobStarted j))])
  | Failure (ClientError msg) =>
      (Return None,
       (t ++ [ECall req (Failure (ClientError msg))])
         ++ [ELogError (ClientError msg)])
  | Failure e => (Raise e, t ++ [ECall req (Failure e)])
  end.
Proof.
  unfold retrieve_inventory, try_except, bind, remote.
  destruct (api_initiate_job (glacier w) t vault_name _) as [j|e];
    [reflexivity|].
  destruct e; reflexivity.
Qed.

Lemma retrieve_inventory_results_cases (w : world) (vault_name job_id : str)
    (t : trace) :
  retrieve_inventory_results w vault_name job_id t =
  let req := GetJobOutput vault_name job_id in
  match api_get_job_output (glacier w) t vault_name job_id with
  | Answer body =>
      json_loads body (t ++ [ECall req (Answer (JobOutput body))])
  | Failure (ClientError msg) =>
      (Return JNull,
       (t ++ [ECall req (Failure (ClientError msg))])
         ++ [ELogError (ClientError msg)])
  | Failure e => (Raise e, t ++ [ECall req (Failure e)])
  end.
Proof.
  unfold retrieve_inventory_results, try_except, bind, remote.
  destruct (api_get_job_output (glacier w) t vault_name job_id) as [j|e];
    [reflexivity|].
  destruct e; reflexivity.
Qed.

Lemma list_vaults_cases (w : world) (n : Z) (marker : option str) (t : trace) :
  list_vaults w n marker t =
  let req := ListVaults (of_int n) marker in
  match api_list_vaults (glacier w) t (of_int n) marker with
  | Answer page =>
      (Return page, t ++ [ECall req (Answer (Vaults (fst page) (snd page)))])
  | Failure e => (Raise e, t ++ [ECall req (Failure e)])
  end.
Proof.
  unfold list_vaults, bind, remote.
  destruct marker as [m|];
    destruct (api_list_vaults (glacier w) t (of_int n) _) as [[vs mk]|e];
    reflexivity.
Qed.

(** C2, as the code has it.  When the remote call fails with a
    [ClientError], [retrieve_inventory] returns [None],
    [retrieve_inventory_results] returns [None] and [delete_archive]
    returns [False], each after logging the error, and none raises.
    [list_vaults] has no handler: the [ClientError] of its remote call
    reaches its caller. *)
Theorem C2_client_errors (w : world) (t : trace) (msg : str) :
  let e := ClientError msg in
  (forall vault_name,
     api_initiate_job (glacier w) t vault_name (py "inventory-retrieval")
       = Failure e ->
     retrieve_inventory w vault_name t
     = (Return None,
        t ++ [ECall (InitiateJob vault_name (py "inventory-retrieval"))
                    (Failure e);
              ELogError e]))
  /\ (forall vault_name job_id,
        api_get_job_output (glacier w) t vault_name job_id = Failure e ->
        retrieve_inventory_results w vault_name job_id t
        = (Return JNull,
           t ++ [ECall (GetJobOutput vault_name job_id) (Failure e);
                 ELogError e]))
  /\ (forall vault_name archive_id,
        api_delete_archive (glacier w) t vault_name archive_id = Failure e ->
        delete_archive w vault_name archive_id t
        = (Return false,
           t ++ [ECall (DeleteArchive vault_name archive_id) (Failure e);
                 ELogError e]))
  /\ (forall max_vaults iter_marker,
        api_list_vaults (glacier w) t (of_int max_vaults) iter_marker
          = Failure e ->
        list_vaults w max_vaults iter_marker t
        = (Raise e,
           t ++ [ECall (ListVaults (of_int max_vaults) iter_marker)
                       (Failure e)])).
Proof.
  cbv zeta. repeat split.
  - intros v H. rewrite retrieve_inventory_cases. cbv zeta. rewrite H.
    now rewrite <- app_assoc.
  - intros v j H. rewrite retrieve_inventory_results_cases. cbv zeta.
    rewrite H. now rewrite <- app_assoc.
  - intros v a H. rewrite delete_archive_cases. cbv zeta. rewrite H.
    now rewrite <- app_assoc.
  - intros n m H. rewrite list_vaults_cases. cbv zeta. now rewrite H.
Qed.

(** C2 against the service that rejects every request. *)
Lemma C2_client_errors_witness :
  let e := ClientError (py "AccessDeniedException") in
  fst (retrieve_inventory refusing_world (py "v") []) = Return None
  /\ fst (retrieve_inventory_results refusing_world (py "v") (py "j") [])
     = Return JNull
  /\ fst (delete_archive refusing_world (py "v") (py "a") []) = Return false
  /\ fst (list_vaults refusing_world 10 None []) = Raise e.
Proof.
  destruct (C2_client_errors refusing_world [] (py "AccessDeniedException"))
    as (H1 & H2 & H3 & H4).
  cbv zeta.
  rewrite (H1 (py "v") eq_refl), (H2 (py "v") (py "j") eq_refl),
    (H3 (py "v") (py "a") eq_refl), (H4 10%Z None eq_refl).
  repeat split; reflexivity.
Defined.

(** C2 as the specification words it fails for [list_vaults]: a
    [ClientError] of its remote call is not turned into a returned value. *)
Lemma C2_counterexample :
  ~ (forall (w : world) (max_vaults : Z) (iter_marker : option str)
            (t : trace) (msg : str),
       api_list_vaults (glacier w) t (of_int max_vaults) iter_marker
         = Failure (ClientError msg) ->
       exists r t', list_vaults w max_vaults iter_marker t = (Return r, t')).
Proof.
  intros H.
  destruct (H refusing_world 10%Z None [] (py "AccessDeniedException") eq_refl)
    as (r & t' & E).
  vm_compute in E. discriminate E.
Qed.

(* ===================================================================== *)
(** ** The deletion loop *)
(* ===================================================================== *)

Lemma delete_loop_cons (w : world) (vault_name id : str) (ids : list str)
    (t : trace) :
  delete_loop w vault_name (id :: ids) t =
  match delete_archive w vault_name id t with
  | (Return true, t') =>
      match print w (py "Deleted archive " ++ id ++ py " from " ++ vault_name)
                  None t' with
      | (Return _, t'') => delete_loop w vault_name ids t''
      | (Raise e, t'') => (Raise e, t'')
      | (Diverge, t'') => (Diverge, t'')
      end
  | (Return false, t') => delete_loop w vault_name ids t'
  | (Raise e, t') => (Raise e, t')
  | (Diverge, t') => (Diverge, t')
  end.
Proof.
  unfold delete_loop. simpl for_each. unfold bind at 1. unfold bind at 1.
  destruct (delete_archive w vault_name id t) as [[[|]|e|] t']; reflexivity.
Qed.

Lemma plain_deleted (vault_name id : str) :
  plain vault_name = true -> plain id = true ->
  plain (py "Deleted archive " ++ id ++ py " from " ++ vault_name) = true.
Proof. intros Hv Hi. rewrite !plain_app, Hv, Hi. reflexivity. Qed.

(** One turn of the deletion loop, by the answer of the service, when the
    deletion message holds no markup. *)
Lemma delete_loop_step (w : world) (vault_name id : str) (ids : list str)
    (t : trace) :
  plain vault_name = true -> plain id = true ->
  delete_loop w vault_name (id :: ids) t =
  let req := DeleteArchive vault_name id in
  match api_delete_archive (glacier w) t vault_name id with
  | Answer _ =>
      delete_loop w vault_name ids
        ((t ++ [ECall req (Answer Deleted)])
           ++ [EPrint (py "Deleted archive " ++ id ++ py " from " ++ vault_name)
                      None])
  | Failure (ClientError msg) =>
      delete_loop w vault_name ids
        ((t ++ [ECall req (Failure (ClientError msg))])
           ++ [ELogError (ClientError msg)])
  | Failure e => (Raise e, t ++ [ECall req (Failure e)])
  end.
Proof.
  intros Hv Hi. rewrite delete_loop_cons, delete_archive_cases. cbv zeta.
  destruct (api_delete_archive (glacier w) t vault_name id) as [u|e].
  - now rewrite (print_plain w _ None _ (plain_deleted _ _ Hv Hi)).
  - destruct e; reflexivity.
Qed.

(** A rejected deletion is logged and the loop goes on with the next ID. *)
Lemma delete_loop_rejected (w : world) (vault_name id msg : str)
    (ids : list str) (t : trace) :
  api_delete_archive (glacier w) t vault_name id = Failure (ClientError msg) ->
  delete_loop w vault_name (id :: ids) t
  = delete_loop w vault_name ids
      (t ++ [ECall (DeleteArchive vault_name id) (Failure (ClientError msg));
             ELogError (ClientError msg)]).
Proof.
  intros H. rewrite delete_loop_cons, delete_archive_cases. cbv zeta.
  rewrite H. now rewrite <- app_assoc.
Qed.

Lemma delete_loop_attempts_all (w : world) (vault_name : str) (ids : list str) :
  plain vault_name = true -> forallb plain ids = true ->
  rejects_only w vault_name ids ->
  forall t, exists evs,
    delete_loop w vault_name ids t = (Return tt, t ++ evs)
    /\ calls evs = map (DeleteArchive vault_name) ids.
Proof.
  intros Hv. induction ids as [|id ids IH]; intros Hp Hw t.
  - exists []. split; [|reflexivity]. unfold delete_loop; simpl.
    unfold ret. now rewrite app_nil_r.
  - simpl in Hp. apply andb_true_iff in Hp as [Hi Hp].
    assert (Hrest : rejects_only w vault_name ids).
    { intros x u Hx. apply Hw. now right. }
    rewrite (delete_loop_step w vault_name id ids t Hv Hi). cbv zeta.
    destruct (Hw id t (or_introl eq_refl)) as [[u E] | [msg E]]; rewrite E.
    + match goal with |- context [delete_loop w vault_name ids ?t1] =>
        destruct (IH Hp Hrest t1) as (evs & Hrun & Hcalls) end.
      eexists. split.
      * rewrite Hrun. rewrite <- !app_assoc. reflexivity.
      * simpl. now rewrite Hcalls.
    + match goal with |- context [delete_loop w vault_name ids ?t1] =>
        destruct (IH Hp Hrest t1) as (evs & Hrun & Hcalls) end.
      eexists. split.
      * rewrite Hrun. rewrite <- !app_assoc. reflexivity.
      * simpl. now rewrite Hcalls.
Qed.

(** C3.  [delete_archive] returns [True] when the remote call succeeds;
    when the remote call fails with a [ClientError] it returns [False]
    without raising, after logging the error.  In the deletion loop of the
    delete action a rejected ID is logged and the loop goes on with the IDs
    after it; when the service only ever succeeds or rejects, and neither
    the vault name nor an ID holds an opening bracket (console markup),
    every ID of the list is attempted, in order, whatever the fate of the
    ones before it, and the loop ends normally. *)
Theorem C3_delete_archive (w : world) (vault_name : str) :
  (forall archive_id t u,
     api_delete_archive (glacier w) t vault_name archive_id = Answer u ->
     delete_archive w vault_name archive_id t
     = (Return true,
        t ++ [ECall (DeleteArchive vault_name archive_id) (Answer Deleted)]))
  /\ (forall archive_id t msg,
        api_delete_archive (glacier w) t vault_name archive_id
          = Failure (ClientError msg) ->
        delete_archive w vault_name archive_id t
        = (Return false,
           t ++ [ECall (DeleteArchive vault_name archive_id)
                       (Failure (ClientError msg));
                 ELogError (ClientError msg)]))
  /\ (forall archive_id archive_ids t msg,
        api_delete_archive (glacier w) t vault_name archive_id
          = Failure (ClientError msg) ->
        delete_loop w vault_name (archive_id :: archive_ids) t
        = delete_loop w vault_name archive_ids
            (t ++ [ECall (DeleteArchive vault_name archive_id)
                         (Failure (ClientError msg));
                   ELogError (ClientError msg)]))
  /\ (forall archive_ids t,
        rejects_only w vault_name archive_ids ->
        plain vault_name = true -> forallb plain archive_ids = true ->
        exists evs,
          delete_loop w vault_name archive_ids t = (Return tt, t ++ evs)
          /\ calls evs = map (DeleteArchive vault_name) archive_ids).
Proof.
  repeat split.
  - intros id t u H. rewrite delete_archive_cases. cbv zeta. now rewrite H.
  - intros id t msg H. rewrite delete_archive_cases. cbv zeta. rewrite H.
    now rewrite <- app_assoc.
  - intros id ids t msg H. now apply delete_loop_rejected.
  - intros ids t H Hv Hp. now apply delete_loop_attempts_all.
Qed.

Lemma picky_rejects_only (ids : list str) : rejects_only picky_world (py "v") ids.
Proof.
  intros id t _. simpl.
  destruct (PyStr.eqb id (py "bad")); [right|left]; eexists; reflexivity.
Qed.

(** C3 on three IDs, the first of which the service rejects. *)
Lemma C3_delete_archive_witness :
  fst (delete_archive picky_world (py "v") (py "abc123") []) = Return true
  /\ delete_archive picky_world (py "v") (py "bad") []
     = (Return false,
        [ECall (DeleteArchive (py "v") (py "bad"))
               (Failure (ClientError (py "ResourceNotFoundException")));
         ELogError (ClientError (py "ResourceNotFoundException"))])
  /\ delete_loop picky_world (py "v") [py "bad"; py "abc123"] []
     = delete_loop picky_world (py "v") [py "abc123"]
         [ECall (DeleteArchive (py "v") (py "bad"))
                (Failure (ClientError (py "ResourceNotFoundException")));
          ELogError (ClientError (py "ResourceNotFoundException"))]
  /\ calls (snd (delete_loop picky_world (py "v")
                   [py "bad"; py "abc123"; py "def456"] []))
     = [DeleteArchive (py "v") (py "bad");
        DeleteArchive (py "v") (py "abc123");
        DeleteArchive (py "v") (py "def456")].
Proof.
  destruct (C3_delete_archive picky_world (py "v"))
    as (Hok & Hno & Hnext & Hall).
  split; [|split; [|split]].
  - rewrite (Hok (py "abc123") [] tt eq_refl). reflexivity.
  - rewrite (Hno (py "bad") [] (py "ResourceNotFoundException") eq_refl).
    reflexivity.
  - exact (Hnext (py "bad") [py "abc123"] []
             (py "ResourceNotFoundException") eq_refl).
  - destruct (Hall [py "bad"; py "abc123"; py "def456"] []
                   (picky_rejects_only _) eq_refl eq_refl)
      as (evs & Hrun & Hcalls).
    rewrite Hrun. exact Hcalls.
Defined.

(* ===================================================================== *)
(** ** The dispatcher *)
(* ===================================================================== *)

Section Dispatch.

Variable py_repr : value -> str.
Variable w : world.
Variable fuel : nat.

Lemma main_delete (a : args) (t : trace) :
  action a = py "delete" ->
  main py_repr w fuel a t
  = action_delete w (vault a) [] (t ++ [ELogConfig (level_of a)]).
Proof. intros H. unfold main, bind, emit. rewrite H. reflexivity. Qed.

Lemma main_get_inventory (a : args) (t : trace) :
  action a = py "get_inventory" ->
  main py_repr w fuel a t
  = action_get_inventory py_repr w (vault a) (job a)
      (t ++ [ELogConfig (level_of a)]).
Proof. intros H. unfold main, bind, emit. rewrite H. reflexivity. Qed.

Lemma main_list (a : args) (t : trace) :
  action a = py "list" ->
  main py_repr w fuel a t
  = action_list w fuel 10 (t ++ [ELogConfig (level_of a)]).
Proof. intros H. unfold main, bind, emit. rewrite H. reflexivity. Qed.


Lemma action_delete_run (vault_name : str) (t : trace) :
  action_delete w vault_name [] t =
  match files w (py "archive.txt") with
  | None => (Raise (FileNotFoundError (py "archive.txt")),
             t ++ [EOpen (py "archive.txt")])
  | Some text =>
      delete_loop w vault_name (extract_ids (readlines text))
        (((t ++ [EOpen (py "archive.txt")]) ++ map ERead (readlines text))
           ++ [EClose (py "archive.txt")])
  end.
Proof.
  unfold action_delete, bind, with_open.
  destruct (files w (py "archive.txt")) as [text|]; [|reflexivity].
  rewrite scrape_loop_spec. reflexivity.
Qed.

(** The deletion loop touches no file, whatever the service does. *)
Lemma delete_loop_no_file (vault_name : str) (ids : list str) (t : trace) :
  exists r evs,
    delete_loop w vault_name ids t = (r, t ++ evs)
    /\ forallb (fun e => negb (is_file_event e)) evs = true.
Proof.
  revert t; induction ids as [|id ids IH]; intros t.
  - exists (Return tt), []. split; [|reflexivity].
    unfold delete_loop; simpl. unfold ret. now rewrite app_nil_r.
  - rewrite delete_loop_cons, delete_archive_cases. cbv zeta.
    destruct (api_delete_archive (glacier w) t vault_name id) as [u|e].
    + match goal with |- context [print w ?s None ?t1] =>
        destruct (print_cases w s None t1) as [E|E]; rewrite E end.
      * match goal with |- context [delete_loop _ _ _ ?t1] =>
          destruct (IH t1) as (r & evs & Hrun & Hno) end.
        exists r. eexists. split.
        -- rewrite Hrun, <- !app_assoc. reflexivity.
        -- simpl. exact Hno.
      * eexists. eexists. split; reflexivity.
    + destruct e;
        try (eexists; eexists; split; [reflexivity|reflexivity]).
      match goal with |- context [delete_loop _ _ _ ?t1] =>
        destruct (IH t1) as (r & evs & Hrun & Hno) end.
      exists r. eexists. split.
      * rewrite Hrun, <- !app_assoc. reflexivity.
      * simpl. exact Hno.
Qed.

End Dispatch.

Lemma opened_app (t u : trace) : opened (t ++ u) = opened t ++ opened u.
Proof. apply flat_map_app. Qed.

Lemma calls_app (t u : trace) : calls (t ++ u) = calls t ++ calls u.
Proof. apply flat_map_app. Qed.

Lemma opened_reads (lines : list str) : opened (map ERead lines) = [].
Proof. induction lines; simpl; auto. Qed.

Lemma calls_reads (lines : list str) : calls (map ERead lines) = [].
Proof. induction lines; simpl; auto. Qed.

Lemma opened_no_file (evs : trace) :
  forallb (fun e => negb (is_file_event e)) evs = true -> opened evs = [].
Proof.
  induction evs as [|e evs IH]; simpl; [reflexivity|].
  intros H. apply andb_true_iff in H as [He Hr].
  destruct e; simpl in *; try discriminate; auto.
Qed.

(** The run of the delete action, from the start of [main]. *)
Lemma delete_run_shape (py_repr : value -> str) (w : world) (fuel : nat)
    (a : args) :
  action a = py "delete" ->
  match files w (py "archive.txt") with
  | Some text =>
      exists rest,
        snd (main py_repr w fuel a [])
        = [ELogConfig (level_of a); EOpen (py "archive.txt")]
            ++ map ERead (readlines text)
            ++ [EClose (py "archive.txt")] ++ rest
        /\ forallb (fun e => negb (is_file_event e)) rest = true
  | None =>
      main py_repr w fuel a []
      = (Raise (FileNotFoundError (py "archive.txt")),
         [ELogConfig (level_of a); EOpen (py "archive.txt")])
  end.
Proof.
  intros Ha. rewrite (main_delete py_repr w fuel a [] Ha), action_delete_run.
  destruct (files w (py "archive.txt")) as [text|]; [|reflexivity].
  match goal with |- context [delete_loop _ ?v ?ids ?t1] =>
    destruct (delete_loop_no_file w v ids t1) as (r & evs & Hrun & Hno) end.
  exists evs. split; [|exact Hno].
  rewrite Hrun. simpl snd. rewrite <- !app_assoc. reflexivity.
Qed.

(** C5.  Two invocations that differ only in [--filename] run alike: same
    result, same trace.  The delete action calls [open] once, on the fixed
    name [archive.txt], whatever [--filename] holds. *)
Theorem C5_filename_ignored (py_repr : value -> str) (w : world) (fuel : nat)
    (a : args) (t : trace) :
  (forall a', action a' = action a -> vault a' = vault a ->
              debug a' = debug a -> job a' = job a ->
              main py_repr w fuel a' t = main py_repr w fuel a t)
  /\ (forall f, action a = py "delete" ->
        opened (snd (main py_repr w fuel (with_filename f a) []))
        = [py "archive.txt"]).
Proof.
  split.
  { intros a' Ha Hv Hd Hj. unfold main. now rewrite Ha, Hv, Hd, Hj. }
  intros f Ha.
  change (main py_repr w fuel (with_filename f a) [])
    with (main py_repr w fuel a []).
  pose proof (delete_run_shape py_repr w fuel a Ha) as H.
  destruct (files w (py "archive.txt")) as [text|].
  - destruct H as (rest & -> & Hno).
    rewrite !opened_app, opened_reads, (opened_no_file _ Hno). reflexivity.
  - rewrite H. reflexivity.
Qed.

(** C5 on the sample: [--filename other.txt] changes nothing. *)
Lemma C5_filename_ignored_witness :
  main no_repr sample_world 0
       (with_filename (Some (py "other.txt")) delete_args) []
  = main no_repr sample_world 0 delete_args []
  /\ opened (snd (main no_repr sample_world 0
                    (with_filename (Some (py "other.txt")) delete_args) []))
     = [py "archive.txt"].
Proof.
  destruct (C5_filename_ignored no_repr sample_world 0 delete_args [])
    as [Hsame Hopen].
  split.
  - apply Hsame; reflexivity.
  - apply Hopen. reflexivity.
Defined.

(** C8.  In a run of the delete action the trace begins with the call of
    [open] on the log, the reading of every line of it and its closing;
    what follows holds no file event, and every remote call of the run is
    in what follows.  When the log does not exist the run stops at [open]. *)
Theorem C8_log_closed_before_deleting (py_repr : value -> str) (w : world)
    (fuel : nat) (a : args) :
  action a = py "delete" ->
  let t := snd (main py_repr w fuel a []) in
  match files w (py "archive.txt") with
  | Some text =>
      exists rest,
        t = [ELogConfig (level_of a); EOpen (py "archive.txt")]
              ++ map ERead (readlines text)
              ++ [EClose (py "archive.txt")] ++ rest
        /\ forallb (fun e => negb (is_file_event e)) rest = true
        /\ calls t = calls rest
  | None => t = [ELogConfig (level_of a); EOpen (py "archive.txt")]
  end.
Proof.
  intros Ha. cbv zeta.
  pose proof (delete_run_shape py_repr w fuel a Ha) as H.
  destruct (files w (py "archive.txt")) as [text|].
  - destruct H as (rest & Ht & Hno).
    exists rest. split; [exact Ht|]. split; [exact Hno|].
    rewrite Ht, !calls_app, calls_reads. reflexivity.
  - now rewrite H.
Qed.

(** C8 on the sample: two deletions, both after the log is closed. *)
Lemma C8_log_closed_before_deleting_witness :
  action delete_args = py "delete"
  /\ exists rest,
       snd (main no_repr sample_world 0 delete_args [])
       = [ELogConfig INFO; EOpen (py "archive.txt")]
           ++ map ERead (readlines sample_log)
           ++ [EClose (py "archive.txt")] ++ rest
       /\ forallb (fun e => negb (is_file_event e)) rest = true
       /\ calls (snd (main no_repr sample_world 0 delete_args []))
          = calls rest.
Proof.
  split; [reflexivity|].
  exact (C8_log_closed_before_deleting no_repr sample_world 0 delete_args
           eq_refl).
Defined.










Example markup_action_run :
  main no_repr refusing_world 0 markup_args []
  = (Raise MarkupError, [ELogConfig INFO]).
Proof. vm_compute. reflexivity. Qed.

(** C7.  The action [get_inventory] without [--job] prints the message
    that a job ID is required (in yellow), makes no remote call, and
    [main] returns. *)
Theorem C7_job_required (py_repr : value -> str) (w : world) (fuel : nat)
    (a : args) (t : trace) :
  action a = py "get_inventory" -> job a = None ->
  main py_repr w fuel a t
  = (Return tt,
     t ++ [ELogConfig (level_of a);
           EPrint (py "Job ID is required to get the inventory results")
                  (Some (py "yellow"))])
  /\ calls (snd (main py_repr w fuel a t)) = calls t.
Proof.
  intros Ha Hj.
  assert (E : main py_repr w fuel a t
              = (Return tt,
                 t ++ [ELogConfig (level_of a);
                       EPrint (py "Job ID is required to get the inventory results")
                              (Some (py "yellow"))])).
  { rewrite (main_get_inventory py_repr w fuel a t Ha).
    unfold action_get_inventory. rewrite Hj.
    rewrite print_plain by reflexivity. now rewrite <- app_assoc. }
  rewrite E. split; [reflexivity|].
  simpl snd. rewrite calls_app. simpl. now rewrite app_nil_r.
Qed.

(** C7 against a service that would answer. *)
Lemma C7_job_required_witness :
  main no_repr sample_world 0 (get_inventory_args None) []
  = (Return tt,
     [ELogConfig DEBUG;
      EPrint (py "Job ID is required to get the inventory results")
             (Some (py "yellow"))]).
Proof.
  exact (proj1 (C7_job_required no_repr sample_world 0
                  (get_inventory_args None) [] eq_refl eq_refl)).
Defined.

(* ===================================================================== *)
(** ** Decoding and printing an inventory *)
(* ===================================================================== *)

Lemma loads_sample_inventory :
  Json.loads sample_inventory
  = Scanned
      (JObj [(py "VaultARN", JStr (py "arn:x"));
             (py "ArchiveList",
              JArr [JObj [(py "Size", JInt 5);
                          (py "ArchiveId", JStr (py "a1"))]])])
      [].
Proof. vm_compute. reflexivity. Qed.

(** C9.  When the job output is the example inventory, the get_inventory
    action decodes it and prints the vault line and one archive line,
    [  Size:      5,  Archive ID: a1]: the archive ID a1 and the size 5 of
    the document are in the printed output. *)
Theorem C9_inventory_round_trip (py_repr : value -> str) (w : world)
    (vault_name job_id : str) (t : trace) :
  api_get_job_output (glacier w) t vault_name job_id = Answer sample_inventory ->
  action_get_inventory py_repr w vault_name (Some job_id) t
  = (Return tt,
     t ++ [ECall (GetJobOutput vault_name job_id)
                 (Answer (JobOutput sample_inventory));
           EPrint (py "Vault ARN: arn:x") None;
           EPrint (py "  Size:      5,  Archive ID: a1") None])
  /\ contains (py "Archive ID: a1") (py "  Size:      5,  Archive ID: a1") = true
  /\ contains (py "Size:      5,") (py "  Size:      5,  Archive ID: a1") = true
  /\ fmt_d 6 5 = py "     5".
Proof.
  intros H. split; [|repeat split; reflexivity].
  unfold action_get_inventory. unfold bind at 1.
  rewrite retrieve_inventory_results_cases. cbv zeta. rewrite H.
  unfold json_loads. rewrite loads_sample_inventory.
  unfold ret at 1. cbv beta iota.
  repeat (unfold bind, subscript, iterate, print, emit, ret; simpl).
  rewrite <- !app_assoc. reflexivity.
Qed.

(** C9 from [main]: what the console is given. *)
Lemma C9_inventory_round_trip_witness :
  printed (snd (main no_repr inventory_world 0
                  (get_inventory_args (Some (py "job-1"))) []))
  = [py "Vault ARN: arn:x"; py "  Size:      5,  Archive ID: a1"].
Proof.
  rewrite (main_get_inventory no_repr inventory_world 0
             (get_inventory_args (Some (py "job-1"))) [] eq_refl).
  change (job (get_inventory_args (Some (py "job-1"))))
    with (Some (py "job-1")).
  rewrite (proj1 (C9_inventory_round_trip no_repr inventory_world
                    (vault (get_inventory_args (Some (py "job-1"))))
                    (py "job-1") _ eq_refl)).
  reflexivity.
Defined.

(* ===================================================================== *)
(** ** Listing the vaults page by page *)
(* ===================================================================== *)

Lemma to_string_py (s : string) : to_string (py s) = s.
Proof.
  unfold to_string, py. rewrite map_map.
  rewrite (map_ext _ (fun a => a)) by apply ascii_N_embedding.
  rewrite map_id. apply string_of_list_ascii_of_string.
Qed.

Lemma py_bytes (s : string) : forallb (fun c => c <? 256)%N (py s) = true.
Proof.
  unfold py. apply forallb_forall. intros c Hc.
  apply in_map_iff in Hc as (a & <- & _).
  apply N.ltb_lt. apply N_ascii_bounded.
Qed.

Lemma to_int_of_int (z : Z) : to_int (of_int z) = Some z.
Proof.
  unfold to_int, of_int. rewrite py_bytes, to_string_py, NilZero.isi.
  - simpl. now rewrite DecimalZ.of_to.
  - destruct z; simpl; intros [= H]; try discriminate H.
    now apply DecimalPos.Unsigned.to_uint_nonnil in H.
  - destruct z; simpl; intros [= H].
    now apply DecimalPos.Unsigned.to_uint_nonnil in H.
Qed.

Lemma plain_vault_row (v : vault_info) :
  plain (VaultName v) = true -> plain (vault_row v) = true.
Proof.
  intros H. unfold vault_row. rewrite !plain_app, !plain_fmt_d, H. reflexivity.
Qed.

(** The rows of a page whose vault names hold no markup are all printed. *)
Lemma for_each_print (w : world) (vs : list vault_info) (t : trace) :
  forallb (fun v => plain (VaultName v)) vs = true ->
  for_each vs (fun v => print w (vault_row v) None) t
  = (Return tt, t ++ map (fun v => EPrint (vault_row v) None) vs).
Proof.
  revert t; induction vs as [|v vs IH]; intros t H; simpl.
  - unfold ret. now rewrite app_nil_r.
  - simpl in H. apply andb_true_iff in H as [Hv Hvs].
    unfold bind. rewrite (print_plain w _ None t (plain_vault_row v Hv)).
    rewrite (IH _ Hvs). now rewrite <- app_assoc.
Qed.

(** Whatever the names, the rows are printed in order up to the first one
    the console refuses, if any. *)
Lemma for_each_rows (w : world) (vs : list vault_info) (t : trace) :
  exists r us,
    for_each vs (fun v => print w (vault_row v) None) t
    = (r, t ++ map (fun v => EPrint (vault_row v) None) us)
    /\ (r = Return tt /\ us = vs \/ r = Raise MarkupError)
    /\ (forallb (fun v => plain (VaultName v)) vs = true -> r = Return tt).
Proof.
  revert t; induction vs as [|v vs IH]; intros t.
  - exists (Return tt), []. simpl. unfold ret. rewrite app_nil_r. auto.
  - simpl for_each. unfold bind.
    destruct (Markup.renders (rich w) (vault_row v)) eqn:E.
    + rewrite (print_renders w _ None t E).
      destruct (IH (t ++ [EPrint (vault_row v) None]))
        as (r & us & -> & Hr & Hp).
      exists r, (v :: us). split; [now rewrite <- app_assoc|]. split.
      * destruct Hr as [[-> ->] | ->]; auto.
      * intros H. simpl in H. apply andb_true_iff in H as [_ H]. auto.
    + rewrite (print_refused w _ None t E).
      exists (Raise MarkupError), []. simpl. rewrite app_nil_r.
      split; [reflexivity|]. split; [now right|].
      intros H. simpl in H. apply andb_true_iff in H as [Hv _].
      apply plain_vault_row in Hv. unfold Markup.renders in E.
      change (Markup.plain (vault_row v)) with (plain (vault_row v)) in E.
      rewrite Hv in E. discriminate E.
Qed.

Lemma printed_app (t u : trace) : printed (t ++ u) = printed t ++ printed u.
Proof. apply flat_map_app. Qed.

Lemma returned_markers_app (t u : trace) :
  returned_markers (t ++ u) = returned_markers t ++ returned_markers u.
Proof. apply flat_map_app. Qed.

Lemma printed_rows (vs : list vault_info) :
  printed (map (fun v => EPrint (vault_row v) None) vs) = map vault_row vs.
Proof. induction vs; simpl; congruence. Qed.

Lemma returned_markers_rows (vs : list vault_info) :
  returned_markers (map (fun v => EPrint (vault_row v) None) vs) = [].
Proof. induction vs; simpl; auto. Qed.

Lemma calls_rows (vs : list vault_info) :
  calls (map (fun v => EPrint (vault_row v) None) vs) = [].
Proof. induction vs; simpl; auto. Qed.

Lemma forallb_firstn {A} (P : A -> bool) (n : nat) (l : list A) :
  forallb P l = true -> forallb P (firstn n l) = true.
Proof.
  revert l; induction n as [|n IH]; intros [|x l] H; simpl; auto.
  simpl in H. apply andb_true_iff in H as [Hx Hl]. now rewrite Hx, IH.
Qed.

Lemma forallb_skipn {A} (P : A -> bool) (n : nat) (l : list A) :
  forallb P l = true -> forallb P (skipn n l) = true.
Proof.
  revert l; induction n as [|n IH]; intros [|x l] H; simpl; auto.
  simpl in H. apply andb_true_iff in H as [Hx Hl]. now apply IH.
Qed.

Section Pagination.

Variable enc : nat -> str.
Variable dec : str -> option nat.
Hypothesis dec_enc : forall k, dec (enc k) = Some k.
Variable all_vaults : list vault_info.
Variable lib : styles.

Local Abbreviation page := (page enc all_vaults).
Local Abbreviation paged_world := (paged_world enc dec all_vaults lib).
Local Abbreviation loop_from := (loop_from enc dec all_vaults lib).

Lemma list_vaults_first (p : Z) (t : trace) :
  (0 < p)%Z ->
  list_vaults paged_world p None t
  = (Return (page (Z.to_nat p) 0),
     t ++ [ECall (ListVaults (of_int p) None)
                 (Answer (Vaults (fst (page (Z.to_nat p) 0))
                                 (snd (page (Z.to_nat p) 0))))]).
Proof.
  intros Hp. rewrite list_vaults_cases. cbv zeta. simpl.
  unfold paged_list_vaults. rewrite to_int_of_int.
  apply Z.ltb_lt in Hp. now rewrite Hp.
Qed.

Lemma list_vaults_next (p : Z) (k : nat) (t : trace) :
  (0 < p)%Z ->
  list_vaults paged_world p (Some (enc k)) t
  = (Return (page (Z.to_nat p) k),
     t ++ [ECall (ListVaults (of_int p) (Some (enc k)))
                 (Answer (Vaults (fst (page (Z.to_nat p) k))
                                 (snd (page (Z.to_nat p) k))))]).
Proof.
  intros Hp. rewrite list_vaults_cases. cbv zeta. simpl.
  unfold paged_list_vaults. rewrite to_int_of_int, dec_enc.
  apply Z.ltb_lt in Hp. now rewrite Hp.
Qed.

Lemma plain_page (n k : nat) :
  forallb (fun v => plain (VaultName v)) all_vaults = true ->
  forallb (fun v => plain (VaultName v)) (fst (page n k)) = true.
Proof. intros H. now apply forallb_firstn, forallb_skipn. Qed.

Lemma list_loop_last_page (p : Z) (k m : nat) :
  forallb (fun v => plain (VaultName v)) all_vaults = true ->
  List.length all_vaults <= k + Z.to_nat p ->
  exists evs, loop_from p k m evs.
Proof.
  intros Hplain Hlast. set (n := Z.to_nat p) in *.
  exists (map (fun v => EPrint (vault_row v) None) (fst (page n k))).
  pose proof (plain_page n k Hplain) as Hpage.
  assert (Hno : (k + n <? List.length all_vaults) = false)
    by (apply Nat.ltb_ge; lia).
  unfold loop_from. fold n. revert Hpage. unfold page.
  rewrite Hno. simpl fst. simpl snd. intros Hpage.
  rewrite printed_rows, returned_markers_rows, calls_rows.
  rewrite firstn_all2 in * by (rewrite length_skipn; lia).
  repeat split.
  intros [|fuel] t Hf; [lia|]. simpl.
  unfold bind. rewrite (for_each_print _ _ _ Hpage). reflexivity.
Qed.

Lemma list_loop_paged (p : Z) :
  (0 < p)%Z ->
  forallb (fun v => plain (VaultName v)) all_vaults = true ->
  forall m k, List.length all_vaults - k <= m ->
    exists evs, loop_from p k m evs.
Proof.
  intros Hp Hplain. set (n := Z.to_nat p).
  assert (Hn : 0 < n) by (subst n; lia).
  induction m as [|m IH]; intros k Hk.
  - apply list_loop_last_page; [exact Hplain|lia].
  - destruct (k + n <? List.length all_vaults) eqn:Hmore;
      [|apply list_loop_last_page;
        [exact Hplain|apply Nat.ltb_ge in Hmore; exact Hmore]].
    assert (Hk' : snd (page n k) = Some (enc (k + n))).
    { unfold page. simpl. now rewrite Hmore. }
    apply Nat.ltb_lt in Hmore.
    destruct (IH (k + n)) as (evs & Hprint & Hmark & Hrun); [lia|].
    fold n in Hmark, Hrun.
    exists (map (fun v => EPrint (vault_row v) None) (fst (page n k))
            ++ [ECall (ListVaults (of_int p) (Some (enc (k + n))))
                      (Answer (Vaults (fst (page n (k + n)))
                                      (snd (page n (k + n)))))]
            ++ evs).
    unfold loop_from. fold n. rewrite Hk'. split; [|split].
    + rewrite !printed_app, printed_rows, Hprint. simpl.
      rewrite <- map_app. f_equal. unfold page; simpl fst.
      transitivity (firstn n (skipn k all_vaults)
                    ++ skipn n (skipn k all_vaults));
        [|apply firstn_skipn].
      f_equal. rewrite skipn_skipn. f_equal. lia.
    + rewrite !returned_markers_app, returned_markers_rows,
        !calls_app, calls_rows.
      destruct (snd (page n (k + n))) as [mk|]; simpl.
      * destruct Hmark as (ms & -> & Hlen). exists (mk :: ms).
        split; [reflexivity|]. simpl. now rewrite Hlen.
      * destruct Hmark as [-> ->]. exists []. split; reflexivity.
    + intros [|fuel] t Hf; [lia|]. simpl.
      unfold bind at 1. rewrite (for_each_print _ _ _ (plain_page n k Hplain)).
      unfold bind at 1. rewrite (list_vaults_next p (k + n) _ Hp).
      fold n. rewrite Hrun by lia. now rewrite <- !app_assoc.
Qed.

(** C4.  Against a service that pages through a list of vaults whose names
    hold no opening bracket (console markup), for every positive page size
    (so for every one from 1 to the number of vaults), the loop of the list
    action ends for every large enough loop budget; after the two header
    lines it prints one row per vault of the list, each once, in the order
    of the service: the number of archives in 3 columns, the size in 12,
    the name, two spaces apart; every call but the last returned a marker
    and the last one returned none. *)
Theorem C4_pagination (max_vaults : Z) :
  (0 < max_vaults)%Z ->
  forallb (fun v => plain (VaultName v)) all_vaults = true ->
  exists evs,
    (exists enough, forall fuel t, enough <= fuel ->
       action_list paged_world fuel max_vaults t = (Return tt, t ++ evs))
    /\ printed evs
       = [py "#     Size         Vault Name";
          py "------------------------------"]
         ++ map (fun v => fmt_d 3 (NumberOfArchives v) ++ py "  "
                          ++ fmt_d 12 (SizeInBytes v) ++ py "  "
                          ++ VaultName v) all_vaults
    /\ (exists ms, returned_markers evs = map Some ms ++ [None]
                   /\ List.length (calls evs) = S (List.length ms)).
Proof.
  intros Hp Hplain. set (n := Z.to_nat max_vaults).
  destruct (list_loop_paged max_vaults Hp Hplain (List.length all_vaults) 0)
    as (evs & Hprint & Hmark & Hrun); [lia|]. fold n in Hmark, Hrun.
  rewrite skipn_O in Hprint.
  exists ([ECall (ListVaults (of_int max_vaults) None)
                 (Answer (Vaults (fst (page n 0)) (snd (page n 0))));
           EPrint (py "#     Size         Vault Name") None;
           EPrint (py "------------------------------") None] ++ evs).
  split; [|split].
  - exists (S (List.length all_vaults)). intros fuel t Hf.
    unfold action_list. unfold bind at 1.
    rewrite (list_vaults_first max_vaults t Hp). fold n.
    unfold bind at 1. rewrite print_plain by reflexivity.
    unfold bind at 1. rewrite print_plain by reflexivity.
    rewrite Hrun by lia. now rewrite <- !app_assoc.
  - rewrite printed_app, Hprint. reflexivity.
  - rewrite returned_markers_app, calls_app.
    destruct (snd (page n 0)) as [mk|]; simpl.
    + destruct Hmark as (ms & -> & Hlen). exists (mk :: ms).
      split; [reflexivity|]. simpl. now rewrite Hlen.
    + destruct Hmark as [-> ->]. exists []. split; reflexivity.
Qed.

End Pagination.

Lemma read_unary_ok (k : nat) : read_unary (unary k) = Some k.
Proof. unfold read_unary, unary. now rewrite repeat_length. Qed.

(** C4 on three vaults listed two at a time. *)
Lemma C4_pagination_witness :
  (0 < 2)%Z
  /\ exists evs,
       (exists enough, forall fuel t, enough <= fuel ->
          action_list (paged_world unary read_unary three_vaults no_styles)
            fuel 2 t
          = (Return tt, t ++ evs))
       /\ printed evs
          = [py "#     Size         Vault Name";
             py "------------------------------";
             py "  4          1024  alpha";
             py "  0             0  beta";
             py " 12     123456789  gamma"]
       /\ (exists ms, returned_markers evs = map Some ms ++ [None]
                      /\ List.length (calls evs) = S (List.length ms)).
Proof.
  split; [lia|].
  exact (C4_pagination unary read_unary read_unary_ok three_vaults no_styles 2
           eq_refl eq_refl).
Defined.

Example three_vaults_by_two :
  action_list (paged_world unary read_unary three_vaults no_styles) 3 2 []
  = (Return tt,
     [ECall (ListVaults (py "2") None)
            (Answer (Vaults (firstn 2 three_vaults) (Some (py "xx"))));
      EPrint (py "#     Size         Vault Name") None;
      EPrint (py "------------------------------") None;
      EPrint (py "  4          1024  alpha") None;
      EPrint (py "  0             0  beta") None;
      ECall (ListVaults (py "2") (Some (py "xx")))
            (Answer (Vaults (skipn 2 three_vaults) None));
      EPrint (py " 12     123456789  gamma") None]).
Proof. vm_compute. reflexivity. Qed.

(* ===================================================================== *)
(** ** White space around the archive IDs *)
(* ===================================================================== *)

Lemma lstrip_idem (s : str) : lstrip (lstrip s) = lstrip s.
Proof.
  induction s as [|c s IH]; simpl; [reflexivity|].
  destruct (isspace c) eqn:E; [exact IH|]. simpl. now rewrite E.
Qed.

Lemma lstrip_split (s : str) :
  exists ws, s = ws ++ lstrip s /\ forallb isspace ws = true.
Proof.
  induction s as [|c s (ws & Hs & Hws)]; [now exists []|]. simpl.
  destruct (isspace c) eqn:E.
  - exists (c :: ws). simpl. rewrite E, Hws. split; [now f_equal|reflexivity].
  - now exists [].
Qed.

Lemma rstrip_split (s : str) :
  exists ws, s = rstrip s ++ ws /\ forallb isspace ws = true.
Proof.
  destruct (lstrip_split (List.rev s)) as (ws & Hs & Hws).
  exists (List.rev ws). split; [|now apply allspace_rev].
  unfold rstrip. rewrite <- rev_app_distr, <- Hs. symmetry. apply rev_involutive.
Qed.

Lemma lstrip_head (s : str) :
  match lstrip s with [] => True | c :: _ => isspace c = false end.
Proof.
  induction s as [|c s IH]; simpl; [exact I|].
  destruct (isspace c) eqn:E; [exact IH|exact E].
Qed.

Lemma rstrip_idem (s : str) : rstrip (rstrip s) = rstrip s.
Proof. unfold rstrip. now rewrite rev_involutive, lstrip_idem. Qed.

Lemma lstrip_rstrip (s : str) : lstrip s = s -> lstrip (rstrip s) = rstrip s.
Proof.
  intros Hs. destruct (rstrip_split s) as (ws & Hsplit & Hws).
  pose proof (lstrip_head s) as Hh. rewrite Hs in Hh.
  destruct (rstrip s) as [|x r] eqn:Er; [reflexivity|].
  rewrite Hsplit in Hh. simpl in Hh. simpl. now rewrite Hh.
Qed.

Lemma strip_idem (s : str) : strip (strip s) = strip s.
Proof.
  unfold strip at 1.
  assert (H : lstrip (strip s) = strip s)
    by (unfold strip; apply lstrip_rstrip, lstrip_idem).
  rewrite H. unfold strip. apply rstrip_idem.
Qed.

Lemma strip_app_ws (s ws : str) :
  forallb isspace ws = true -> strip (s ++ ws) = strip s.
Proof.
  intros Hws. unfold strip.
  destruct (lstrip_split s) as (w0 & Hs & Hw0).
  pose proof (lstrip_head s) as Hh.
  destruct (lstrip s) as [|h r] eqn:El.
  - rewrite app_nil_r in Hs. subst w0.
    rewrite lstrip_app_ws by exact Hw0. now rewrite (lstrip_ws _ Hws).
  - rewrite Hs at 1. rewrite <- app_assoc, lstrip_app_ws by exact Hw0.
    simpl. rewrite Hh. unfold rstrip.
    change (h :: r ++ ws) with ((h :: r) ++ ws).
    rewrite rev_app_distr, lstrip_app_ws by now apply allspace_rev.
    reflexivity.
Qed.

Lemma strip_ws (s : str) : forallb isspace s = true -> strip s = [].
Proof. intros H. unfold strip. now rewrite (lstrip_ws _ H). Qed.

(** X9.  Every archive ID the scraping loop collects is free of leading
    and trailing white space: stripping it again changes nothing. *)
Theorem ids_are_stripped (lines : list str) (id : str) :
  In id (extract_ids lines) ->
  strip id = id /\ lstrip id = id /\ rstrip id = id.
Proof.
  intros Hin. unfold extract_ids in Hin. apply in_flat_map in Hin as (l & _ & Hl).
  destruct (extract_id l) as [k|] eqn:E; [|contradiction].
  destruct Hl as [<-|[]].
  unfold extract_id in E. destruct (find MARKER l); [|discriminate].
  injection E as <-. repeat split.
  - apply strip_idem.
  - unfold strip. apply lstrip_rstrip, lstrip_idem.
  - unfold strip. apply rstrip_idem.
Qed.

(** X8.  A line that holds the marker followed by white space only (or by
    nothing) is not skipped: the loop appends the empty string as an
    archive ID. *)
Theorem blank_id_is_kept (line : str) (i : nat) (ids : list str) (t : trace) :
  find MARKER line = Some i ->
  forallb isspace (slice_from (i + 12) line) = true ->
  scrape_line line ids t = (Return (ids ++ [[]]), t).
Proof.
  intros Hi Hws. rewrite scrape_line_spec. unfold extract_id. rewrite Hi.
  now rewrite (strip_ws _ Hws).
Qed.

(* ===================================================================== *)
(** ** From the inventory listing back to archive IDs *)
(* ===================================================================== *)

Lemma startswith_app (p s : str) : startswith p (p ++ s) = true.
Proof. induction p as [|x p IH]; simpl; [reflexivity|]. now rewrite N.eqb_refl. Qed.

Lemma find_startswith (sub s : str) :
  startswith sub s = true -> find sub s = Some 0.
Proof. intros H. destruct s; simpl; now rewrite H. Qed.

(** The marker is found right after a text that holds no capital A. *)
Lemma find_marker_after (pre rest : str) :
  forallb (fun c => negb (c =? 65)%N) pre = true ->
  find MARKER (pre ++ MARKER ++ rest) = Some (List.length pre).
Proof.
  induction pre as [|c pre IH]; intros H.
  - change ([] ++ MARKER ++ rest) with (MARKER ++ rest).
    apply find_startswith, startswith_app.
  - simpl in H. apply andb_true_iff in H as [Hc Hpre].
    change ((c :: pre) ++ MARKER ++ rest) with (c :: pre ++ MARKER ++ rest).
    change (List.length (c :: pre)) with (S (List.length pre)).
    change (find MARKER (c :: pre ++ MARKER ++ rest))
      with (if startswith MARKER (c :: pre ++ MARKER ++ rest) then Some 0
            else option_map S (find MARKER (pre ++ MARKER ++ rest))).
    assert (Hno : startswith MARKER (c :: pre ++ MARKER ++ rest) = false).
    { apply negb_true_iff in Hc.
      change (((65 =? c)%N && startswith (tl MARKER) (pre ++ MARKER ++ rest))
              = false).
      now rewrite N.eqb_sym, Hc. }
    rewrite Hno, (IH Hpre). reflexivity.
Qed.

Lemma skipn_app_length {A} (pre s : list A) (n : nat) :
  skipn (List.length pre + n) (pre ++ s) = skipn n s.
Proof. induction pre; simpl; auto. Qed.

Lemma inventory_line_split (z : Z) (id : str) :
  inventory_line z id
  = (py "  Size: " ++ fmt_d 6 z ++ py ",  ") ++ MARKER ++ 32%N :: id.
Proof. unfold inventory_line. rewrite <- !app_assoc. reflexivity. Qed.

(** The scraper reads the ID back from a line of the inventory listing. *)
Lemma extract_inventory_line (z : Z) (id : str) :
  extract_id (inventory_line z id ++ LF) = Some (strip id).
Proof.
  unfold extract_id. rewrite inventory_line_split.
  assert (Hpre : forallb (fun c => negb (c =? 65)%N)
                   (py "  Size: " ++ fmt_d 6 z ++ py ",  ") = true).
  { rewrite !forallb_app. rewrite fmt_d_all; [reflexivity|reflexivity|].
    intros c Hc. now apply decimal_not. }
  set (pre := py "  Size: " ++ fmt_d 6 z ++ py ",  ") in *.
  rewrite <- !app_assoc. rewrite (find_marker_after _ _ Hpre).
  unfold slice_from. rewrite skipn_app_length.
  change (skipn 12 (MARKER ++ (32%N :: id) ++ LF)) with (id ++ LF).
  now rewrite strip_app_ws.
Qed.

Lemma inventory_line_one_line (z : Z) (id : str) :
  one_line id = true -> one_line (inventory_line z id) = true.
Proof.
  intros Hid. unfold one_line in *. unfold inventory_line.
  rewrite !forallb_app.
  apply andb_true_iff; split; [reflexivity|].
  apply andb_true_iff; split;
    [|apply andb_true_iff; split; [reflexivity|exact Hid]].
  apply fmt_d_all; [reflexivity|].
  intros c Hc. unfold is_decimal_char in Hc.
  apply negb_true_iff, orb_false_iff. split; apply N.eqb_neq; intros ->;
    discriminate Hc.
Qed.

Lemma universal_newlines_cons (c : char) (s : str) :
  (c =? 13)%N = false ->
  universal_newlines (c :: s) = c :: universal_newlines s.
Proof.
  intros H. destruct c as [|p]; [reflexivity|].
  do 4 (destruct p as [p|p|]; try reflexivity).
  discriminate H.
Qed.

Lemma universal_newlines_id (s : str) :
  forallb (fun c => negb (c =? 13)%N) s = true -> universal_newlines s = s.
Proof.
  induction s as [|c s IH]; [reflexivity|]. intros H.
  simpl in H. apply andb_true_iff in H as [Hc Hs].
  apply negb_true_iff in Hc.
  rewrite (universal_newlines_cons _ _ Hc), (IH Hs). reflexivity.
Qed.

Lemma split_lines_line (cur l rest : str) :
  forallb (fun c => negb (c =? 10)%N) l = true ->
  split_lines cur (l ++ LF ++ rest) = (cur ++ l ++ LF) :: split_lines [] rest.
Proof.
  revert cur; induction l as [|c l IH]; intros cur H.
  - reflexivity.
  - simpl in H. apply andb_true_iff in H as [Hc Hl].
    apply negb_true_iff in Hc. simpl. rewrite Hc, (IH _ Hl).
    now rewrite <- app_assoc.
Qed.

Lemma one_line_parts (s : str) :
  one_line s = true ->
  forallb (fun c => negb (c =? 10)%N) s = true
  /\ forallb (fun c => negb (c =? 13)%N) s = true.
Proof.
  unfold one_line. intros H. split; revert H; apply forallb_impl; intros c Hc;
    apply negb_true_iff in Hc; apply orb_false_iff in Hc as [H10 H13];
    now apply negb_true_iff.
Qed.

Lemma split_lines_text (ls : list str) :
  forallb one_line ls = true ->
  split_lines [] (lines_text ls) = map (fun l => l ++ LF) ls.
Proof.
  induction ls as [|l ls IH]; [reflexivity|]. intros H.
  simpl in H. apply andb_true_iff in H as [Hl Hls].
  unfold lines_text. simpl. fold (lines_text ls).
  rewrite <- app_assoc, split_lines_line by apply (one_line_parts _ Hl).
  now rewrite IH.
Qed.

Lemma lines_text_no_cr (ls : list str) :
  forallb one_line ls = true ->
  forallb (fun c => negb (c =? 13)%N) (lines_text ls) = true.
Proof.
  induction ls as [|l ls IH]; [reflexivity|]. intros H.
  simpl in H. apply andb_true_iff in H as [Hl Hls].
  unfold lines_text. simpl. fold (lines_text ls).
  rewrite !forallb_app.
  apply andb_true_iff; split; [|exact (IH Hls)].
  apply andb_true_iff; split; [exact (proj2 (one_line_parts _ Hl))|reflexivity].
Qed.

(** Reading a text written line by line gives the lines back. *)
Lemma readlines_lines_text (ls : list str) :
  forallb one_line ls = true ->
  readlines (lines_text ls) = map (fun l => l ++ LF) ls.
Proof.
  intros H. unfold readlines.
  rewrite universal_newlines_id by now apply lines_text_no_cr.
  now apply split_lines_text.
Qed.

(* ===================================================================== *)
(** ** The page loop against any service *)
(* ===================================================================== *)

Lemma flat_map_rows {B} (f : event -> list B) (vs : list vault_info) :
  (forall s o, f (EPrint s o) = []) ->
  flat_map f (map (fun v => EPrint (vault_row v) None) vs) = [].
Proof. intros H. induction vs; simpl; [reflexivity|]. now rewrite H. Qed.

Lemma request_markers_app (t u : trace) :
  request_markers (t ++ u) = request_markers t ++ request_markers u.
Proof. apply flat_map_app. Qed.

Lemma returned_pages_app (t u : trace) :
  returned_pages (t ++ u) = returned_pages t ++ returned_pages u.
Proof. apply flat_map_app. Qed.

Lemma list_loop_any (w : world) (p : Z) :
  forall fuel vs marker t, exists r evs,
    list_loop w fuel p vs marker t = (r, t ++ evs)
    /\ loop_facts p vs marker r evs.
Proof.
  induction fuel as [|fuel IH]; intros vs marker t.
  - exists Diverge, []. split; [simpl; unfold diverge; now rewrite app_nil_r|].
    repeat split; try reflexivity; intros H; congruence.
  - simpl list_loop. unfold bind at 1.
    destruct (for_each_rows w vs t) as (r0 & us & -> & Hr0 & Hplain).
    set (rows := map (fun v => EPrint (vault_row v) None) us).
    assert (Hc : calls rows = []) by (apply flat_map_rows; reflexivity).
    assert (Hq : request_markers rows = []) by (apply flat_map_rows; reflexivity).
    assert (Hm : returned_markers rows = []) by (apply flat_map_rows; reflexivity).
    assert (Hg : returned_pages rows = []) by (apply flat_map_rows; reflexivity).
    assert (Hp : printed rows = map vault_row us) by apply printed_rows.
    destruct Hr0 as [[-> Hus] | ->].
    2:{ exists (Raise MarkupError), rows. split; [reflexivity|].
        unfold loop_facts. rewrite Hc, Hq, Hm, Hg. simpl.
        repeat split; try discriminate.
        intros _ Hall. rewrite app_nil_r in Hall.
        specialize (Hplain Hall). discriminate Hplain. }
    subst us. clear Hplain.
    destruct marker as [m|].
    + unfold bind at 1. rewrite list_vaults_cases. cbv zeta.
      destruct (api_list_vaults (glacier w) (t ++ rows) (of_int p) (Some m))
        as [page|e].
      * destruct (IH (fst page) (snd page)
                     ((t ++ rows)
                        ++ [ECall (ListVaults (of_int p) (Some m))
                                  (Answer (Vaults (fst page) (snd page)))]))
          as (r & evs & Hrun & Hcalls & Hchain & Hprint & Hend).
        exists r.
        exists (rows ++ [ECall (ListVaults (of_int p) (Some m))
                               (Answer (Vaults (fst page) (snd page)))] ++ evs).
        split; [rewrite Hrun; now rewrite <- !app_assoc|].
        unfold loop_facts.
        rewrite !calls_app, !request_markers_app, !returned_markers_app,
          !returned_pages_app, !printed_app, Hc, Hq, Hm, Hg, Hp.
        simpl. repeat split.
        -- now rewrite Hcalls.
        -- now rewrite <- Hchain.
        -- intros Hr Hall. rewrite forallb_app in Hall.
           apply andb_true_iff in Hall as [_ Hall].
           now rewrite (Hprint Hr Hall), !map_app.
        -- intros Hr. destruct (Hend Hr) as (ms & Hms). exists (m :: ms).
           simpl. now rewrite Hms.
      * exists (Raise e).
        exists (rows ++ [ECall (ListVaults (of_int p) (Some m)) (Failure e)]).
        split; [cbv beta iota; now rewrite <- app_assoc|].
        unfold loop_facts.
        rewrite !calls_app, !request_markers_app, !returned_markers_app,
          !returned_pages_app, !printed_app, Hc, Hq, Hm, Hg, Hp.
        simpl. repeat split; try discriminate.
        intros _ _. now rewrite !app_nil_r.
    + exists (Return tt), rows. split; [reflexivity|].
      unfold loop_facts. rewrite Hc, Hq, Hm, Hg, Hp. simpl.
      repeat split.
      * intros _ _. now rewrite app_nil_r.
      * intros _. now exists [].
Qed.

Lemma action_list_any (w : world) (p : Z) (fuel : nat) (t : trace) :
  exists r evs,
    action_list w fuel p t = (r, t ++ evs)
    /\ calls evs = map (ListVaults (of_int p)) (request_markers evs)
    /\ request_markers evs
       = firstn (List.length (request_markers evs))
                (None :: returned_markers evs)
    /\ (r <> Diverge ->
        forallb (fun v => plain (VaultName v))
                (List.concat (returned_pages evs)) = true ->
        printed evs
        = match returned_pages evs with
          | [] => []
          | pages => list_header ++ map vault_row (List.concat pages)
          end)
    /\ (r = Return tt ->
        exists ms, returned_markers evs = map Some ms ++ [None]).
Proof.
  unfold action_list. unfold bind at 1. rewrite list_vaults_cases. cbv zeta.
  destruct (api_list_vaults (glacier w) t (of_int p) None) as [page|e].
  - unfold bind at 1. rewrite print_plain by reflexivity.
    unfold bind at 1. rewrite print_plain by reflexivity.
    match goal with |- context [list_loop w fuel p ?vs ?mk ?t1] =>
      destruct (list_loop_any w p fuel vs mk t1)
        as (r & evs & Hrun & Hcalls & Hchain & Hprint & Hend) end.
    exists r.
    exists ([ECall (ListVaults (of_int p) None)
                   (Answer (Vaults (fst page) (snd page)));
             EPrint (py "#     Size         Vault Name") None;
             EPrint (py "------------------------------") None] ++ evs).
    split; [rewrite Hrun; now rewrite <- !app_assoc|].
    rewrite !calls_app, !request_markers_app, !returned_markers_app,
      !returned_pages_app, !printed_app. simpl.
    repeat split.
    + now rewrite Hcalls.
    + now rewrite <- Hchain.
    + intros Hr Hall. now rewrite (Hprint Hr Hall).
    + intros Hr. destruct (Hend Hr) as (ms & Hms).
      destruct ms as [|m ms]; simpl in Hms.
      * injection Hms as -> Hrest. exists []. simpl. 
        destruct (returned_markers evs); [reflexivity|discriminate].
      * injection Hms as -> Hrest. exists (m :: ms). simpl. now rewrite Hrest.
  - exists (Raise e), [ECall (ListVaults (of_int p) None) (Failure e)].
    repeat split; try reflexivity; discriminate.
Qed.

(* ===================================================================== *)
(** ** Failures of the remote operations *)
(* ===================================================================== *)


(** X1.  A failure of the remote call that is not a [ClientError] is not
    handled by [retrieve_inventory], [retrieve_inventory_results] and
    [delete_archive]: it is raised to the caller and nothing is logged. *)
Theorem other_failures_escape (w : world) (t : trace) (e : exn) :
  is_ClientError e = false ->
  (forall vault_name,
     api_initiate_job (glacier w) t vault_name (py "inventory-retrieval")
       = Failure e ->
     retrieve_inventory w vault_name t
     = (Raise e,
        t ++ [ECall (InitiateJob vault_name (py "inventory-retrieval"))
                    (Failure e)]))
  /\ (forall vault_name job_id,
        api_get_job_output (glacier w) t vault_name job_id = Failure e ->
        retrieve_inventory_results w vault_name job_id t
        = (Raise e, t ++ [ECall (GetJobOutput vault_name job_id) (Failure e)]))
  /\ (forall vault_name archive_id,
        api_delete_archive (glacier w) t vault_name archive_id = Failure e ->
        delete_archive w vault_name archive_id t
        = (Raise e,
           t ++ [ECall (DeleteArchive vault_name archive_id) (Failure e)])).
Proof.
  intros He. repeat split.
  - intros v H. rewrite retrieve_inventory_cases. cbv zeta. rewrite H.
    destruct e; try reflexivity; discriminate He.
  - intros v j H. rewrite retrieve_inventory_results_cases. cbv zeta.
    rewrite H. destruct e; try reflexivity; discriminate He.
  - intros v i H. rewrite delete_archive_cases. cbv zeta. rewrite H.
    destruct e; try reflexivity; discriminate He.
Qed.

Lemma other_failures_escape_witness :
  fst (retrieve_inventory unreachable_world (py "v") [])
  = Raise (BotoCoreError (py "EndpointConnectionError"))
  /\ fst (delete_archive unreachable_world (py "v") (py "a") [])
     = Raise (BotoCoreError (py "EndpointConnectionError")).
Proof.
  destruct (other_failures_escape unreachable_world []
              (BotoCoreError (py "EndpointConnectionError")) eq_refl)
    as (H1 & _ & H3).
  rewrite (H1 (py "v") eq_refl), (H3 (py "v") (py "a") eq_refl).
  split; reflexivity.
Defined.

(** X2.  A job output that [json.loads] cannot decode ends the
    get_inventory run with the exception of the decoder, which nothing
    catches, and exit status 1, after the one remote call, with nothing
    printed and nothing logged: [UnicodeDecodeError] when the bytes are no
    text in the encoding detected, [JSONDecodeError] when the text is no
    JSON document (for a text within the limits of the interpreter on
    nesting and on the digits of an integer). *)
Theorem malformed_output_raises (py_repr : value -> str) (w : world)
    (fuel : nat) (a : args) (job_id : str) (body : bytes) :
  action a = py "get_inventory" -> job a = Some job_id ->
  api_get_job_output (glacier w) [ELogConfig (level_of a)] (vault a) job_id
    = Answer body ->
  let called :=
    [ELogConfig (level_of a);
     ECall (GetJobOutput (vault a) job_id) (Answer (JobOutput body))] in
  (Json.text_of body = None ->
   main py_repr w fuel a [] = (Raise UnicodeDecodeError, called)
   /\ fst (run py_repr w fuel a) = Some 1%Z)
  /\ (forall text,
        Json.text_of body = Some text ->
        Json.modest_text text = true ->
        Json.decode text = Malformed ->
        main py_repr w fuel a [] = (Raise JSONDecodeError, called)
        /\ fst (run py_repr w fuel a) = Some 1%Z).
Proof.
  intros Ha Hj Hb. cbv zeta.
  assert (E : forall e,
            json_loads body
              [ELogConfig (level_of a);
               ECall (GetJobOutput (vault a) job_id) (Answer (JobOutput body))]
            = (Raise e,
               [ELogConfig (level_of a);
                ECall (GetJobOutput (vault a) job_id)
                      (Answer (JobOutput body))]) ->
            main py_repr w fuel a []
            = (Raise e,
               [ELogConfig (level_of a);
                ECall (GetJobOutput (vault a) job_id)
                      (Answer (JobOutput body))])).
  { intros e He.
    rewrite (main_get_inventory py_repr w fuel a [] Ha), Hj.
    unfold action_get_inventory. unfold bind at 1.
    rewrite retrieve_inventory_results_cases. cbv zeta. simpl app.
    rewrite Hb, He. reflexivity. }
  split.
  - intros Hn.
    assert (Em : main py_repr w fuel a []
                 = (Raise UnicodeDecodeError,
                    [ELogConfig (level_of a);
                     ECall (GetJobOutput (vault a) job_id)
                           (Answer (JobOutput body))])).
    { apply E. unfold json_loads, Json.loads. now rewrite Hn. }
    split; [exact Em|]. unfold run. now rewrite Em.
  - intros text Ht _ Hm.
    assert (Em : main py_repr w fuel a []
                 = (Raise JSONDecodeError,
                    [ELogConfig (level_of a);
                     ECall (GetJobOutput (vault a) job_id)
                           (Answer (JobOutput body))])).
    { apply E. unfold json_loads, Json.loads. now rewrite Ht, Hm. }
    split; [exact Em|]. unfold run. now rewrite Em.
Qed.

Lemma malformed_output_raises_witness :
  run no_repr (output_world (ascii_bytes (py "<html>busy</html>"))) 0
      (get_inventory_args (Some (py "job-1")))
  = (Some 1%Z,
     [ELogConfig DEBUG;
      ECall (GetJobOutput (py "backups") (py "job-1"))
            (Answer (JobOutput (ascii_bytes (py "<html>busy</html>"))))])
  /\ main no_repr (output_world [Byte.xff]) 0
          (get_inventory_args (Some (py "job-1"))) []
     = (Raise UnicodeDecodeError,
        [ELogConfig DEBUG;
         ECall (GetJobOutput (py "backups") (py "job-1"))
               (Answer (JobOutput [Byte.xff]))]).
Proof.
  split.
  - destruct (malformed_output_raises no_repr
                (output_world (ascii_bytes (py "<html>busy</html>"))) 0
                (get_inventory_args (Some (py "job-1"))) (py "job-1")
                (ascii_bytes (py "<html>busy</html>")) eq_refl eq_refl eq_refl)
      as [_ H].
    destruct (H (py "<html>busy</html>") eq_refl eq_refl eq_refl) as [E _].
    unfold run. rewrite E. reflexivity.
  - destruct (malformed_output_raises no_repr (output_world [Byte.xff]) 0
                (get_inventory_args (Some (py "job-1"))) (py "job-1")
                [Byte.xff] eq_refl eq_refl eq_refl)
      as [H _].
    exact (proj1 (H eq_refl)).
Defined.



(** X4.  A get_inventory run whose call is rejected with a [ClientError]
    logs the error, prints nothing and exits 0.  A run whose job output is
    the JSON document [null] prints nothing either, logs nothing and exits
    0: the caller cannot tell a [null] inventory from a failed call by what
    [retrieve_inventory_results] returns. *)
Theorem get_inventory_silent (py_repr : value -> str) (w : world) (fuel : nat)
    (a : args) (job_id : str) :
  action a = py "get_inventory" -> job a = Some job_id ->
  let t0 := [ELogConfig (level_of a)] in
  let req := GetJobOutput (vault a) job_id in
  (forall msg,
     api_get_job_output (glacier w) t0 (vault a) job_id
       = Failure (ClientError msg) ->
     retrieve_inventory_results w (vault a) job_id t0
     = (Return JNull,
        t0 ++ [ECall req (Failure (ClientError msg));
               ELogError (ClientError msg)])
     /\ run py_repr w fuel a
        = (Some 0%Z,
           t0 ++ [ECall req (Failure (ClientError msg));
                  ELogError (ClientError msg)]))
  /\ (forall body rest,
        api_get_job_output (glacier w) t0 (vault a) job_id = Answer body ->
        Json.loads body = Scanned JNull rest ->
        retrieve_inventory_results w (vault a) job_id t0
        = (Return JNull, t0 ++ [ECall req (Answer (JobOutput body))])
        /\ run py_repr w fuel a
           = (Some 0%Z, t0 ++ [ECall req (Answer (JobOutput body))])).
Proof.
  intros Ha Hj. cbv zeta. split.
  - intros msg H.
    assert (E : retrieve_inventory_results w (vault a) job_id
                  [ELogConfig (level_of a)]
                = (Return JNull,
                   [ELogConfig (level_of a)]
                     ++ [ECall (GetJobOutput (vault a) job_id)
                               (Failure (ClientError msg));
                         ELogError (ClientError msg)])).
    { rewrite retrieve_inventory_results_cases. cbv zeta. rewrite H.
      reflexivity. }
    split; [exact E|]. unfold run.
    rewrite (main_get_inventory py_repr w fuel a [] Ha), Hj.
    unfold action_get_inventory. unfold bind at 1. simpl app in *.
    rewrite E. reflexivity.
  - intros body rest H Hl.
    assert (E : retrieve_inventory_results w (vault a) job_id
                  [ELogConfig (level_of a)]
                = (Return JNull,
                   [ELogConfig (level_of a)]
                     ++ [ECall (GetJobOutput (vault a) job_id)
                               (Answer (JobOutput body))])).
    { rewrite retrieve_inventory_results_cases. cbv zeta. rewrite H.
      unfold json_loads. rewrite Hl. reflexivity. }
    split; [exact E|]. unfold run.
    rewrite (main_get_inventory py_repr w fuel a [] Ha), Hj.
    unfold action_get_inventory. unfold bind at 1. simpl app in *.
    rewrite E. reflexivity.
Qed.

Lemma get_inventory_silent_witness :
  printed (snd (run no_repr refusing_world 0
                  (get_inventory_args (Some (py "job-1"))))) = []
  /\ run no_repr (output_world (ascii_bytes (py " null "))) 0
         (get_inventory_args (Some (py "job-1")))
     = (Some 0%Z,
        [ELogConfig DEBUG;
         ECall (GetJobOutput (py "backups") (py "job-1"))
               (Answer (JobOutput (ascii_bytes (py " null "))))]).
Proof.
  split.
  - destruct (get_inventory_silent no_repr refusing_world 0
                (get_inventory_args (Some (py "job-1"))) (py "job-1")
                eq_refl eq_refl) as [H _].
    destruct (H (py "AccessDeniedException") eq_refl) as [_ E].
    rewrite E. reflexivity.
  - destruct (get_inventory_silent no_repr (output_world (ascii_bytes (py " null "))) 0
                (get_inventory_args (Some (py "job-1"))) (py "job-1")
                eq_refl eq_refl) as [_ H].
    destruct (H (ascii_bytes (py " null ")) [] eq_refl eq_refl) as [_ E].
    exact E.
Defined.

(* ===================================================================== *)
(** ** The inventory listing *)
(* ===================================================================== *)

Lemma archive_row_of (py_repr : value -> str) (item : value) (a : Z * str)
    (t : trace) :
  is_archive item a ->
  archive_row py_repr item t = (Return (inventory_line (fst a) (snd a)), t).
Proof.
  intros (members & -> & Hsize & Hid).
  unfold archive_row, bind, subscript. rewrite Hsize. unfold ret at 1.
  cbv beta iota. unfold format_d, ret at 1. cbv beta iota.
  rewrite Hid. reflexivity.
Qed.

Lemma plain_inventory_line (z : Z) (id : str) :
  plain id = true -> plain (inventory_line z id) = true.
Proof.
  intros H. unfold inventory_line. rewrite !plain_app, plain_fmt_d, H.
  reflexivity.
Qed.

Lemma rows_printed (py_repr : value -> str) (w : world) (items : list value)
    (archives : list (Z * str)) :
  Forall2 is_archive items archives ->
  forallb (fun a => plain (snd a)) archives = true ->
  forall t,
    for_each items (fun archive =>
      row <- archive_row py_repr archive ;; print w row None) t
    = (Return tt,
       t ++ map (fun a => EPrint (inventory_line (fst a) (snd a)) None)
                archives).
Proof.
  induction 1 as [|item a items archives Ha _ IH]; intros Hp t; simpl.
  - unfold ret. now rewrite app_nil_r.
  - simpl in Hp. apply andb_true_iff in Hp as [Hid Hp].
    unfold bind at 1. unfold bind at 1.
    rewrite (archive_row_of py_repr item a t Ha).
    rewrite (print_plain w _ None t (plain_inventory_line _ _ Hid)).
    rewrite (IH Hp). now rewrite <- app_assoc.
Qed.

(** X5.  When the job output decodes to a dict (within the limits of the
    interpreter on nesting and on the digits of an integer) whose VaultARN
    is a string and whose ArchiveList is a list of records with an integer
    Size and a string ArchiveId, and neither the ARN nor an ID holds an
    opening bracket (console markup), the get_inventory action prints the vault
    line and then one line per record, in the order of the list, each made
    of the size right-aligned in six columns and the archive ID; it returns
    normally after the one remote call. *)
Theorem inventory_listing (py_repr : value -> str) (w : world)
    (vault_name job_id : str) (t : trace) (body : bytes) (rest arn : str)
    (members : list (str * value)) (items : list value)
    (archives : list (Z * str)) :
  api_get_job_output (glacier w) t vault_name job_id = Answer body ->
  Json.loads body = Scanned (JObj members) rest ->
  Json.modest (JObj members) = true ->
  Json.get (py "VaultARN") members = Some (JStr arn) ->
  Json.get (py "ArchiveList") members = Some (JArr items) ->
  Forall2 is_archive items archives ->
  plain arn = true ->
  forallb (fun a => plain (snd a)) archives = true ->
  action_get_inventory py_repr w vault_name (Some job_id) t
  = (Return tt,
     t ++ ECall (GetJobOutput vault_name job_id) (Answer (JobOutput body))
       :: EPrint (py "Vault ARN: " ++ arn) None
       :: map (fun a => EPrint (py "  Size: " ++ fmt_d 6 (fst a)
                                ++ py ",  Archive ID: " ++ snd a) None)
              archives).
Proof.
  intros Hb Hl _ Harn Hlist Hitems Hparn Hpids.
  unfold action_get_inventory. unfold bind at 1.
  rewrite retrieve_inventory_results_cases. cbv zeta. rewrite Hb.
  unfold json_loads. rewrite Hl. unfold ret at 1. cbv beta iota.
  unfold bind at 1. unfold subscript at 1. rewrite Harn.
  unfold ret at 1. cbv beta iota.
  unfold bind at 1. cbn [format_default].
  rewrite print_plain by (rewrite plain_app, Hparn; reflexivity).
  unfold bind at 1. unfold subscript at 1. rewrite Hlist.
  unfold ret at 1. cbv beta iota.
  unfold bind at 1. unfold iterate, ret at 1. cbv beta iota.
  rewrite (rows_printed py_repr w items archives Hitems Hpids).
  rewrite <- !app_assoc. reflexivity.
Qed.

Lemma inventory_listing_witness :
  action_get_inventory no_repr inventory_world (py "backups")
    (Some (py "job-1")) []
  = (Return tt,
     [ECall (GetJobOutput (py "backups") (py "job-1"))
            (Answer (JobOutput sample_inventory));
      EPrint (py "Vault ARN: arn:x") None;
      EPrint (py "  Size:      5,  Archive ID: a1") None]).
Proof.
  apply (inventory_listing no_repr inventory_world (py "backups") (py "job-1")
           [] sample_inventory [] (py "arn:x") _ _ [(5%Z, py "a1")]
           eq_refl loads_sample_inventory eq_refl eq_refl eq_refl);
    [|reflexivity|reflexivity].
  constructor; [|constructor].
  eexists. repeat split; reflexivity.
Defined.

(** X6.  When the job output decodes (within the limits of the
    interpreter on nesting and on the digits of an integer) to something
    that is neither [None] nor a dict, reading its VaultARN raises [TypeError]; a dict without the
    key VaultARN raises [KeyError] for that key; in both cases nothing is
    printed.  A dict with a string VaultARN (without opening bracket) but
    no ArchiveList has its vault line printed before the [KeyError] for
    ArchiveList. *)
Theorem inventory_of_other_shape (py_repr : value -> str) (w : world)
    (vault_name job_id : str) (t : trace) (body : bytes) (rest : str)
    (v : value) :
  api_get_job_output (glacier w) t vault_name job_id = Answer body ->
  Json.loads body = Scanned v rest ->
  Json.modest v = true ->
  let called :=
    t ++ [ECall (GetJobOutput vault_name job_id) (Answer (JobOutput body))] in
  (v <> JNull -> (forall members, v <> JObj members) ->
   action_get_inventory py_repr w vault_name (Some job_id) t
   = (Raise TypeError, called))
  /\ (forall members, v = JObj members ->
        Json.get (py "VaultARN") members = None ->
        action_get_inventory py_repr w vault_name (Some job_id) t
        = (Raise (KeyError (py "VaultARN")), called))
  /\ (forall members arn, v = JObj members ->
        Json.get (py "VaultARN") members = Some (JStr arn) ->
        Json.get (py "ArchiveList") members = None ->
        plain arn = true ->
        action_get_inventory py_repr w vault_name (Some job_id) t
        = (Raise (KeyError (py "ArchiveList")),
           called ++ [EPrint (py "Vault ARN: " ++ arn) None])).
Proof.
  intros Hb Hl _. cbv zeta.
  assert (E : action_get_inventory py_repr w vault_name (Some job_id) t
              = match v with
                | JNull => ret tt
                | _ =>
                    arn <- subscript v (py "VaultARN") ;;
                    print w (py "Vault ARN: " ++ format_default py_repr arn) None ;;
                    archives <- subscript v (py "ArchiveList") ;;
                    items <- iterate archives ;;
                    for_each items (fun archive =>
                      row <- archive_row py_repr archive ;; print w row None)
                end (t ++ [ECall (GetJobOutput vault_name job_id)
                                 (Answer (JobOutput body))])).
  { unfold action_get_inventory. unfold bind at 1.
    rewrite retrieve_inventory_results_cases. cbv zeta. rewrite Hb.
    unfold json_loads. rewrite Hl. reflexivity. }
  rewrite E. clear E. repeat split.
  - intros Hnull Hdict.
    destruct v; try reflexivity; [contradiction|].
    exfalso. exact (Hdict _ eq_refl).
  - intros members -> Hget. unfold bind at 1. unfold subscript.
    rewrite Hget. reflexivity.
  - intros members arn -> Harn Hlist Hparn.
    unfold bind at 1. unfold subscript at 1. rewrite Harn.
    unfold ret at 1. cbv beta iota.
    unfold bind at 1. cbn [format_default].
    rewrite print_plain by (rewrite plain_app, Hparn; reflexivity).
    unfold bind at 1. unfold subscript at 1. rewrite Hlist. reflexivity.
Qed.

Lemma inventory_of_other_shape_witness :
  action_get_inventory no_repr (output_world (ascii_bytes (py "[]"))) (py "v")
    (Some (py "j")) []
  = (Raise TypeError,
     [ECall (GetJobOutput (py "v") (py "j")) (Answer (JobOutput (ascii_bytes (py "[]"))))])
  /\ action_get_inventory no_repr (output_world (ascii_bytes (py "{}"))) (py "v")
       (Some (py "j")) []
     = (Raise (KeyError (py "VaultARN")),
        [ECall (GetJobOutput (py "v") (py "j")) (Answer (JobOutput (ascii_bytes (py "{}"))))]).
Proof.
  split.
  - destruct (inventory_of_other_shape no_repr (output_world (ascii_bytes (py "[]")))
                (py "v") (py "j") [] (ascii_bytes (py "[]")) [] (JArr []) eq_refl eq_refl eq_refl)
      as (H & _ & _).
    apply H; [discriminate|intros m; discriminate].
  - destruct (inventory_of_other_shape no_repr (output_world (ascii_bytes (py "{}")))
                (py "v") (py "j") [] (ascii_bytes (py "{}")) [] (JObj []) eq_refl eq_refl eq_refl)
      as (_ & H & _).
    apply (H [] eq_refl eq_refl).
Defined.

Lemma extract_ids_cons (l : str) (ls : list str) :
  extract_ids (l :: ls)
  = match extract_id l with Some k => [k] | None => [] end ++ extract_ids ls.
Proof. reflexivity. Qed.

Lemma extract_ids_inventory (archives : list (Z * str)) :
  extract_ids (map (fun l => l ++ LF)
                   (map (fun a => inventory_line (fst a) (snd a)) archives))
  = map (fun a => strip (snd a)) archives.
Proof.
  induction archives as [|a archives IH]; [reflexivity|].
  change (extract_ids
            ((inventory_line (fst a) (snd a) ++ LF)
               :: map (fun l => l ++ LF)
                      (map (fun a => inventory_line (fst a) (snd a)) archives))
          = strip (snd a) :: map (fun a => strip (snd a)) archives).
  rewrite extract_ids_cons, extract_inventory_line, IH. reflexivity.
Qed.

(** X7.  The format of the inventory lines (line 165) and the scraping
    loop (line 172) agree.  When the log holds a first line without the
    marker (such as the vault line) and then one line per archive with the
    text that the get_inventory action formats for it, each ended by a
    line feed, the scraping loop returns the archive IDs of the listing,
    in order, each stripped of surrounding white space, provided no line
    holds a line break.  This is about the texts the program passes to the
    console, put one per line: a console that folds a long line shows it
    on several lines, to which the theorem does not apply. *)
Theorem listing_feeds_deletion (first : str) (archives : list (Z * str))
    (t : trace) :
  one_line first = true -> contains MARKER (first ++ LF) = false ->
  forallb (fun a => one_line (snd a)) archives = true ->
  let lines :=
    first :: map (fun a => py "  Size: " ++ fmt_d 6 (fst a)
                           ++ py ",  Archive ID: " ++ snd a) archives in
  fst (for_lines (readlines (lines_text lines)) scrape_line [] t)
  = Return (map (fun a => strip (snd a)) archives).
Proof.
  intros Hfirst Hno Hids. cbv zeta.
  change (map (fun a => py "  Size: " ++ fmt_d 6 (fst a)
                        ++ py ",  Archive ID: " ++ snd a) archives)
    with (map (fun a => inventory_line (fst a) (snd a)) archives).
  rewrite scrape_loop_spec. simpl fst. f_equal.
  rewrite readlines_lines_text.
  - rewrite map_cons, extract_ids_cons, (contains_extract _ Hno).
    apply extract_ids_inventory.
  - apply forallb_forall. intros l [<-|Hl]; [exact Hfirst|].
    apply in_map_iff in Hl as (a & <- & Ha).
    apply inventory_line_one_line.
    exact (proj1 (forallb_forall _ _) Hids a Ha).
Qed.

Lemma listing_feeds_deletion_witness :
  fst (for_lines
         (readlines
            (lines_text [py "Vault ARN: arn:x";
                          py "  Size:      5,  Archive ID: a1";
                          py "  Size:   1024,  Archive ID: b2"]))
         scrape_line [] [])
  = Return [py "a1"; py "b2"].
Proof.
  exact (listing_feeds_deletion (py "Vault ARN: arn:x")
           [(5%Z, py "a1"); (1024%Z, py "b2")] [] eq_refl eq_refl eq_refl).
Defined.

(* ===================================================================== *)
(** ** Runs of the delete and list actions *)
(* ===================================================================== *)

Lemma logged_app (t u : trace) : logged (t ++ u) = logged t ++ logged u.
Proof. apply flat_map_app. Qed.




(** X11.  When [archive.txt] does not exist the delete run ends at [open]
    with [FileNotFoundError] and exit status 1; it makes no remote call
    and prints nothing. *)
Theorem delete_without_log (py_repr : value -> str) (w : world) (fuel : nat)
    (a : args) :
  action a = py "delete" ->
  files w (py "archive.txt") = None ->
  main py_repr w fuel a []
  = (Raise (FileNotFoundError (py "archive.txt")),
     [ELogConfig (level_of a); EOpen (py "archive.txt")])
  /\ fst (run py_repr w fuel a) = Some 1%Z
  /\ calls (snd (run py_repr w fuel a)) = []
  /\ printed (snd (run py_repr w fuel a)) = [].
Proof.
  intros Ha Hf.
  assert (E : main py_repr w fuel a []
              = (Raise (FileNotFoundError (py "archive.txt")),
                 [ELogConfig (level_of a); EOpen (py "archive.txt")])).
  { rewrite (main_delete py_repr w fuel a [] Ha), action_delete_run, Hf.
    reflexivity. }
  unfold run. rewrite E. repeat split; reflexivity.
Qed.

Lemma delete_without_log_witness :
  run no_repr picky_world 0 delete_args
  = (Some 1%Z, [ELogConfig INFO; EOpen (py "archive.txt")]).
Proof.
  destruct (delete_without_log no_repr picky_world 0 delete_args
              eq_refl eq_refl) as (E & _).
  unfold run. rewrite E. reflexivity.
Defined.

(** X12.  A deletion that fails with something else than a [ClientError]
    ends the deletion loop with that exception: the IDs before it and the
    failing one were attempted, the IDs after it are not.  (The IDs before
    it and the vault name hold no opening bracket, so that the console
    accepts the deletion messages.) *)
Theorem delete_loop_stops_at_failure (w : world) (vault_name : str)
    (before after : list str) (id : str) (e : exn) (t : trace) :
  rejects_only w vault_name before ->
  (forall t', api_delete_archive (glacier w) t' vault_name id = Failure e) ->
  is_ClientError e = false ->
  plain vault_name = true -> forallb plain before = true ->
  exists evs,
    delete_loop w vault_name (before ++ id :: after) t = (Raise e, t ++ evs)
    /\ calls evs = map (DeleteArchive vault_name) (before ++ [id]).
Proof.
  intros Hw Hid He Hv Hp. revert t.
  induction before as [|b before IH]; intros t.
  - simpl app. rewrite delete_loop_cons, delete_archive_cases. cbv zeta.
    rewrite Hid.
    exists [ECall (DeleteArchive vault_name id) (Failure e)].
    destruct e; try discriminate He; split; reflexivity.
  - simpl in Hp. apply andb_true_iff in Hp as [Hb Hp].
    assert (Hrest : rejects_only w vault_name before).
    { intros x u Hx. apply Hw. now right. }
    simpl app. rewrite (delete_loop_step w vault_name b _ t Hv Hb). cbv zeta.
    destruct (Hw b t (or_introl eq_refl)) as [[u E] | [msg E]]; rewrite E.
    + match goal with |- context [delete_loop w vault_name _ ?t1] =>
        destruct (IH Hrest Hp t1) as (evs & Hrun & Hcalls) end.
      eexists. split; [rewrite Hrun, <- !app_assoc; reflexivity|].
      simpl. now rewrite Hcalls.
    + match goal with |- context [delete_loop w vault_name _ ?t1] =>
        destruct (IH Hrest Hp t1) as (evs & Hrun & Hcalls) end.
      eexists. split; [rewrite Hrun, <- !app_assoc; reflexivity|].
      simpl. now rewrite Hcalls.
Qed.

Lemma flaky_rejects_only (ids : list str) :
  ~ In (py "boom") ids -> rejects_only flaky_world (py "v") ids.
Proof.
  intros Hno id t Hin. left. exists tt. simpl.
  destruct (PyStr.eqb id (py "boom")) eqn:E; [|reflexivity].
  apply eqb_eq in E. subst. contradiction.
Qed.

Lemma delete_loop_stops_at_failure_witness :
  exists evs,
    delete_loop flaky_world (py "v") ([py "a1"] ++ py "boom" :: [py "b2"]) []
    = (Raise (BotoCoreError (py "ConnectionClosedError")), [] ++ evs)
    /\ calls evs = map (DeleteArchive (py "v")) ([py "a1"] ++ [py "boom"]).
Proof.
  apply (delete_loop_stops_at_failure flaky_world (py "v") [py "a1"]
           [py "b2"] (py "boom")
           (BotoCoreError (py "ConnectionClosedError")) []).
  - apply flaky_rejects_only. simpl. intros [H|[]].
    apply eqb_eq in H. discriminate H.
  - intros t'. reflexivity.
  - reflexivity.
  - reflexivity.
  - reflexivity.
Defined.

(** X13.  Against a service that accepts or rejects a deletion by the
    archive ID alone, when neither the vault name nor an accepted ID holds
    an opening bracket (console markup), the deletion loop returns
    normally, prints one "Deleted archive ... from ..." line for each
    accepted ID and logs one error for each rejected ID, both in the order
    of the list. *)
Theorem delete_loop_report (w : world) (vault_name : str) (ok : str -> bool)
    (why : str -> str) (archive_ids : list str) (t : trace) :
  deletes_by_id w vault_name ok why ->
  plain vault_name = true ->
  forallb plain (filter ok archive_ids) = true ->
  exists evs,
    delete_loop w vault_name archive_ids t = (Return tt, t ++ evs)
    /\ printed evs
       = map (fun id => py "Deleted archive " ++ id ++ py " from "
                        ++ vault_name)
             (filter ok archive_ids)
    /\ logged evs
       = map (fun id => ClientError (why id))
             (filter (fun id => negb (ok id)) archive_ids).
Proof.
  intros Hw Hv. revert t.
  induction archive_ids as [|id ids IH]; intros t Hp.
  - exists []. unfold delete_loop; simpl. unfold ret.
    rewrite app_nil_r. repeat split; reflexivity.
  - pose proof (Hw t id) as Hid. simpl filter in *.
    destruct (ok id); simpl negb; cbv iota.
    + simpl in Hp. apply andb_true_iff in Hp as [Hi Hp].
      rewrite (delete_loop_step w vault_name id ids t Hv Hi). cbv zeta.
      rewrite Hid.
      match goal with |- context [delete_loop w vault_name ids ?t1] =>
        destruct (IH t1 Hp) as (evs & Hrun & Hprint & Hlog) end.
      eexists. split; [rewrite Hrun, <- !app_assoc; reflexivity|].
      simpl. rewrite Hprint, Hlog. split; reflexivity.
    + rewrite (delete_loop_rejected w vault_name id _ ids t Hid).
      match goal with |- context [delete_loop w vault_name ids ?t1] =>
        destruct (IH t1 Hp) as (evs & Hrun & Hprint & Hlog) end.
      eexists. split; [rewrite Hrun, <- !app_assoc; reflexivity|].
      simpl. rewrite Hprint, Hlog. split; reflexivity.
Qed.

Lemma picky_deletes_by_id :
  deletes_by_id picky_world (py "v")
    (fun id => negb (PyStr.eqb id (py "bad")))
    (fun _ => py "ResourceNotFoundException").
Proof.
  intros t id. simpl. now destruct (PyStr.eqb id (py "bad")).
Qed.

Lemma delete_loop_report_witness :
  exists evs,
    delete_loop picky_world (py "v") [py "a1"; py "bad"; py "b2"] []
    = (Return tt, [] ++ evs)
    /\ printed evs
       = [py "Deleted archive a1 from v"; py "Deleted archive b2 from v"]
    /\ logged evs = [ClientError (py "ResourceNotFoundException")].
Proof.
  exact (delete_loop_report picky_world (py "v") _ _
           [py "a1"; py "bad"; py "b2"] [] picky_deletes_by_id
           eq_refl eq_refl).
Defined.

(** X14.  For any service, every remote call of a list run is a
    [list_vaults] request with limit 10; the first carries no marker and
    each later one carries the marker the answer before it returned.  When
    the run returns, the last answer carried no marker and all answers
    before it carried one. *)
Theorem list_requests_chain (py_repr : value -> str) (w : world) (fuel : nat)
    (a : args) :
  action a = py "list" ->
  let evs := snd (main py_repr w fuel a []) in
  calls evs = map (ListVaults (py "10")) (request_markers evs)
  /\ request_markers evs
     = firstn (List.length (request_markers evs))
              (None :: returned_markers evs)
  /\ (fst (main py_repr w fuel a []) = Return tt ->
      exists ms, returned_markers evs = map Some ms ++ [None]).
Proof.
  intros Ha. cbv zeta. rewrite (main_list py_repr w fuel a [] Ha).
  destruct (action_list_any w 10 fuel ([] ++ [ELogConfig (level_of a)]))
    as (r & evs & Hrun & Hcalls & Hchain & _ & Hend).
  rewrite Hrun. cbn [fst snd].
  rewrite !calls_app, !request_markers_app, !returned_markers_app. simpl.
  repeat split; assumption.
Qed.

Lemma list_requests_chain_witness :
  calls (snd (main no_repr endless_world 2 list_args []))
  = [ListVaults (py "10") None;
     ListVaults (py "10") (Some (py "more"));
     ListVaults (py "10") (Some (py "more"))].
Proof.
  destruct (list_requests_chain no_repr endless_world 2 list_args eq_refl)
    as (Hc & _).
  rewrite Hc. reflexivity.
Defined.

(** X15.  For any service, when a list run ends (by returning or by an
    exception), at least one page was received and no vault name of the
    pages received holds an opening bracket (console markup), the console
    got the two header lines and then one row for each vault of each page
    received, in order: the number of archives in 3 columns, the size in
    12, the name, two spaces apart; when no page was received it got
    nothing. *)
Theorem list_prints_every_page (py_repr : value -> str) (w : world)
    (fuel : nat) (a : args) :
  action a = py "list" ->
  fst (main py_repr w fuel a []) <> Diverge ->
  let evs := snd (main py_repr w fuel a []) in
  forallb (fun v => plain (VaultName v)) (List.concat (returned_pages evs))
    = true ->
  printed evs
  = match returned_pages evs with
    | [] => []
    | pages =>
        [py "#     Size         Vault Name";
         py "------------------------------"]
          ++ map (fun v => fmt_d 3 (NumberOfArchives v) ++ py "  "
                           ++ fmt_d 12 (SizeInBytes v) ++ py "  "
                           ++ VaultName v)
                 (List.concat pages)
    end.
Proof.
  intros Ha. cbv zeta. rewrite (main_list py_repr w fuel a [] Ha).
  destruct (action_list_any w 10 fuel ([] ++ [ELogConfig (level_of a)]))
    as (r & evs & Hrun & _ & _ & Hprint & _).
  rewrite Hrun. cbn [fst snd]. intros Hr.
  rewrite !printed_app, !returned_pages_app. simpl. exact (Hprint Hr).
Qed.

Lemma list_prints_every_page_witness :
  printed (snd (main no_repr
                  (paged_world unary read_unary three_vaults no_styles) 1
                  list_args []))
  = [py "#     Size         Vault Name";
     py "------------------------------";
     py "  4          1024  alpha";
     py "  0             0  beta";
     py " 12     123456789  gamma"].
Proof.
  rewrite (list_prints_every_page no_repr
             (paged_world unary read_unary three_vaults no_styles) 1
             list_args eq_refl).
  - reflexivity.
  - discriminate.
  - reflexivity.
Defined.

(** X16.  When the first [list_vaults] call of a list run fails, with any
    exception, the run ends with that exception and exit status 1 before
    anything is printed, the header lines included. *)
Theorem list_first_call_fails (py_repr : value -> str) (w : world)
    (fuel : nat) (a : args) (e : exn) :
  action a = py "list" ->
  api_list_vaults (glacier w) [ELogConfig (level_of a)] (py "10") None
    = Failure e ->
  run py_repr w fuel a
  = (Some 1%Z,
     [ELogConfig (level_of a); ECall (ListVaults (py "10") None) (Failure e)])
  /\ fst (main py_repr w fuel a []) = Raise e.
Proof.
  intros Ha He.
  assert (E : main py_repr w fuel a []
              = (Raise e,
                 [ELogConfig (level_of a);
                  ECall (ListVaults (py "10") None) (Failure e)])).
  { rewrite (main_list py_repr w fuel a [] Ha).
    unfold action_list. unfold bind at 1. rewrite list_vaults_cases.
    cbv zeta. simpl app.
    change (of_int 10) with (py "10"). rewrite He. reflexivity. }
  unfold run. rewrite E. split; reflexivity.
Qed.

Lemma list_first_call_fails_witness :
  run no_repr refusing_world 7 list_args
  = (Some 1%Z,
     [ELogConfig INFO;
      ECall (ListVaults (py "10") None)
            (Failure (ClientError (py "AccessDeniedException")))]).
Proof.
  exact (proj1 (list_first_call_fails no_repr refusing_world 7 list_args
                  (ClientError (py "AccessDeniedException")) eq_refl eq_refl)).
Defined.

Lemma list_loop_never_ends (w : world) (p : Z) :
  never_ends w ->
  forall fuel vs m t,
    forallb (fun v => plain (VaultName v)) vs = true ->
    exists evs,
      list_loop w fuel p vs (Some m) t = (Diverge, t ++ evs)
      /\ List.length (calls evs) = fuel.
Proof.
  intros Hw. induction fuel as [|fuel IH]; intros vs m t Hvs.
  - exists []. split; [simpl; unfold diverge; now rewrite app_nil_r|reflexivity].
  - simpl list_loop. unfold bind at 1. rewrite (for_each_print _ _ _ Hvs).
    unfold bind at 1. rewrite list_vaults_cases. cbv zeta.
    match goal with |- context [api_list_vaults (glacier w) ?t1 ?l ?mk] =>
      destruct (Hw t1 l mk) as (vs' & m' & E & Hvs'); rewrite E end.
    cbn [fst snd].
    match goal with |- context [list_loop w fuel p vs' (Some m') ?t1] =>
      destruct (IH vs' m' t1 Hvs') as (evs & Hrun & Hlen) end.
    rewrite Hrun.
    eexists. split; [rewrite <- !app_assoc; reflexivity|].
    rewrite !calls_app, calls_rows. simpl. now rewrite Hlen.
Qed.

(** X17.  The page loop has no bound of its own: against a service that
    returns a marker with every page (and vault names without console
    markup), the list run is still going after any number of turns, with
    one call made before the loop and one per turn. *)
Theorem list_never_ends (py_repr : value -> str) (w : world) (a : args) :
  action a = py "list" -> never_ends w ->
  forall fuel,
    fst (run py_repr w fuel a) = None
    /\ List.length (calls (snd (run py_repr w fuel a))) = S fuel.
Proof.
  intros Ha Hw fuel.
  assert (E : exists evs,
             main py_repr w fuel a [] = (Diverge, [ELogConfig (level_of a)] ++ evs)
             /\ List.length (calls evs) = S fuel).
  { rewrite (main_list py_repr w fuel a [] Ha).
    unfold action_list. unfold bind at 1. rewrite list_vaults_cases. cbv zeta.
    match goal with |- context [api_list_vaults (glacier w) ?t1 ?l ?mk] =>
      destruct (Hw t1 l mk) as (vs & m & E & Hvs); rewrite E end.
    unfold bind at 1. rewrite print_plain by reflexivity.
    unfold bind at 1. rewrite print_plain by reflexivity. cbn [fst snd].
    match goal with |- context [list_loop w fuel 10 vs (Some m) ?t1] =>
      destruct (list_loop_never_ends w 10 Hw fuel vs m t1 Hvs)
        as (evs & Hrun & Hlen) end.
    rewrite Hrun. eexists. split; [rewrite <- !app_assoc; reflexivity|].
    simpl. now rewrite Hlen. }
  destruct E as (evs & E & Hlen). unfold run. rewrite E. cbn [fst snd].
  split; [reflexivity|]. rewrite calls_app. exact Hlen.
Qed.

Lemma endless_never_ends : never_ends endless_world.
Proof. intros t limit marker. eexists. eexists. split; reflexivity. Qed.

Lemma list_never_ends_witness :
  fst (run no_repr endless_world 25 list_args) = None
  /\ List.length (calls (snd (run no_repr endless_world 25 list_args))) = 26.
Proof.
  exact (list_never_ends no_repr endless_world list_args eq_refl
           endless_never_ends 25).
Defined.

Lemma ids_are_stripped_witness :
  In (py "abc") (extract_ids [py "x Archive ID:   abc  " ++ LF])
  /\ strip (py "abc") = py "abc".
Proof.
  assert (H : In (py "abc") (extract_ids [py "x Archive ID:   abc  " ++ LF]))
    by (left; reflexivity).
  split; [exact H|].
  exact (proj1 (ids_are_stripped _ _ H)).
Defined.

Lemma blank_id_is_kept_witness :
  scrape_line (py "Archive ID:  " ++ LF) [] [] = (Return [[]], []).
Proof.
  exact (blank_id_is_kept (py "Archive ID:  " ++ LF) 0 [] [] eq_refl eq_refl).
Defined.

(* ===================================================================== *)
(** ** Each run keeps to its action *)
(* ===================================================================== *)

Section Emits.

Variable act : str.

Lemma emits_ret {A} (a : A) : emits act (ret a).
Proof. intros t. exists (Return a), []. now rewrite app_nil_r. Qed.

Lemma emits_raise {A} (e : exn) : emits act (@raise A e).
Proof. intros t. exists (Raise e), []. now rewrite app_nil_r. Qed.

Lemma emits_diverge {A} : emits act (@diverge A).
Proof. intros t. exists Diverge, []. now rewrite app_nil_r. Qed.

Lemma emits_emit (e : event) : belongs act e -> emits act (emit e).
Proof. intros H t. exists (Return tt), [e]. split; [reflexivity|]. now constructor. Qed.

Lemma emits_bind {A B} (m : M A) (k : A -> M B) :
  emits act m -> (forall a, emits act (k a)) -> emits act (bind m k).
Proof.
  intros Hm Hk t. unfold bind.
  destruct (Hm t) as (r & evs & -> & Hall).
  destruct r as [a|e|].
  - destruct (Hk a (t ++ evs)) as (r' & evs' & -> & Hall').
    exists r', (evs ++ evs'). split; [now rewrite app_assoc|].
    apply Forall_app. now split.
  - now exists (Raise e), evs.
  - now exists Diverge, evs.
Qed.

Lemma emits_try_except {A} (body : M A) (h : exn -> option (M A)) :
  emits act body -> (forall e k, h e = Some k -> emits act k) ->
  emits act (try_except body h).
Proof.
  intros Hb Hh t. unfold try_except.
  destruct (Hb t) as (r & evs & -> & Hall).
  destruct r as [a|e|].
  - now exists (Return a), evs.
  - destruct (h e) as [k|] eqn:E.
    + destruct (Hh e k E (t ++ evs)) as (r' & evs' & -> & Hall').
      exists r', (evs ++ evs'). split; [now rewrite app_assoc|].
      apply Forall_app. now split.
    + now exists (Raise e), evs.
  - now exists Diverge, evs.
Qed.

Lemma emits_for_each {A} (l : list A) (body : A -> M unit) :
  (forall x, emits act (body x)) -> emits act (for_each l body).
Proof.
  intros Hb. induction l as [|x l IH]; simpl.
  - apply emits_ret.
  - apply emits_bind; [apply Hb|intros _; exact IH].
Qed.

Lemma emits_print (w : world) (s : str) (style : option str) :
  emits act (print w s style).
Proof.
  unfold print. destruct (Markup.renders (rich w) s);
    [apply emits_emit; exact I|apply emits_raise].
Qed.

Lemma emits_remote {A} (req : request) (ask : trace -> reply A)
    (shown : A -> response) :
  call_action req = act -> emits act (remote req ask shown).
Proof.
  intros H t. unfold remote. destruct (ask t) as [a|e].
  - exists (Return a). eexists. split; [reflexivity|]. now constructor.
  - exists (Raise e). eexists. split; [reflexivity|]. now constructor.
Qed.

Lemma emits_subscript (v : value) (key : str) : emits act (subscript v key).
Proof.
  unfold subscript. destruct v; try apply emits_raise.
  destruct (Json.get key members); [apply emits_ret|apply emits_raise].
Qed.

Lemma emits_iterate (v : value) : emits act (iterate v).
Proof. destruct v; simpl; try apply emits_raise; apply emits_ret. Qed.

Lemma emits_format_d (n : nat) (v : value) : emits act (format_d n v).
Proof. destruct v; simpl; try apply emits_raise; apply emits_ret. Qed.

End Emits.

Lemma emits_list_vaults (w : world) (p : Z) (marker : option str) :
  emits (py "list") (list_vaults w p marker).
Proof.
  unfold list_vaults. apply emits_bind.
  - destruct marker; now apply emits_remote.
  - intros page. apply emits_ret.
Qed.

Lemma emits_list_loop (w : world) (p : Z) (fuel : nat) :
  forall vs marker, emits (py "list") (list_loop w fuel p vs marker).
Proof.
  induction fuel as [|fuel IH]; intros vs marker; simpl.
  - apply emits_diverge.
  - apply emits_bind.
    + apply emits_for_each. intros v. apply emits_print.
    + intros _. destruct marker as [m|]; [|apply emits_ret].
      apply emits_bind; [apply emits_list_vaults|intros page; apply IH].
Qed.

Lemma emits_action_list (w : world) (fuel : nat) (p : Z) :
  emits (py "list") (action_list w fuel p).
Proof.
  unfold action_list. apply emits_bind; [apply emits_list_vaults|].
  intros page. apply emits_bind; [apply emits_print|]. intros _.
  apply emits_bind; [apply emits_print|]. intros _. apply emits_list_loop.
Qed.

Lemma emits_log_and_return {A} (act : str) (e : exn) (a : A) :
  emits act (logging_error e ;; ret a).
Proof.
  apply emits_bind; [apply emits_emit; exact I|intros _; apply emits_ret].
Qed.

Lemma emits_retrieve_inventory (w : world) (vault_name : str) :
  emits (py "start_inventory") (retrieve_inventory w vault_name).
Proof.
  unfold retrieve_inventory. apply emits_try_except.
  - apply emits_bind; [now apply emits_remote|intros r; apply emits_ret].
  - intros e k. destruct (is_ClientError e); [|discriminate].
    intros [= <-]. apply emits_log_and_return.
Qed.

Lemma emits_action_start_inventory (w : world) (vault_name : str) :
  emits (py "start_inventory") (action_start_inventory w vault_name).
Proof.
  unfold action_start_inventory.
  apply emits_bind; [apply emits_retrieve_inventory|].
  intros [r|]; [|apply emits_ret].
  apply emits_bind; [apply emits_print|intros _; apply emits_print].
Qed.

Lemma emits_retrieve_inventory_results (w : world) (vault_name job_id : str) :
  emits (py "get_inventory") (retrieve_inventory_results w vault_name job_id).
Proof.
  unfold retrieve_inventory_results. apply emits_bind.
  - apply emits_try_except.
    + apply emits_bind; [now apply emits_remote|intros r; apply emits_ret].
    + intros e k. destruct (is_ClientError e); [|discriminate].
      intros [= <-]. apply emits_log_and_return.
  - intros [body|]; [|apply emits_ret].
    unfold json_loads. destruct (Json.loads body);
      [apply emits_ret|apply emits_raise|apply emits_raise|apply emits_diverge].
Qed.

Lemma emits_archive_row (py_repr : value -> str) (act : str) (item : value) :
  emits act (archive_row py_repr item).
Proof.
  unfold archive_row.
  apply emits_bind; [apply emits_subscript|intros size].
  apply emits_bind; [apply emits_format_d|intros shown].
  apply emits_bind; [apply emits_subscript|intros id]. apply emits_ret.
Qed.

Lemma emits_action_get_inventory (py_repr : value -> str) (w : world)
    (vault_name : str) (job_id : option str) :
  emits (py "get_inventory") (action_get_inventory py_repr w vault_name job_id).
Proof.
  unfold action_get_inventory. destruct job_id as [j|]; [|apply emits_print].
  apply emits_bind; [apply emits_retrieve_inventory_results|].
  assert (H : forall inventory,
            emits (py "get_inventory")
              (arn <- subscript inventory (py "VaultARN") ;;
               print w (py "Vault ARN: " ++ format_default py_repr arn) None ;;
               archives <- subscript inventory (py "ArchiveList") ;;
               items <- iterate archives ;;
               for_each items (fun archive =>
                 row <- archive_row py_repr archive ;; print w row None))).
  { intros inventory.
    apply emits_bind; [apply emits_subscript|intros arn].
    apply emits_bind; [apply emits_print|intros _].
    apply emits_bind; [apply emits_subscript|intros archives].
    apply emits_bind; [apply emits_iterate|intros items].
    apply emits_for_each. intros archive.
    apply emits_bind; [apply emits_archive_row|intros row; apply emits_print]. }
  intros inventory. destruct inventory; try apply H. apply emits_ret.
Qed.

Lemma emits_delete_archive (w : world) (vault_name archive_id : str) :
  emits (py "delete") (delete_archive w vault_name archive_id).
Proof.
  unfold delete_archive. apply emits_try_except.
  - apply emits_bind; [now apply emits_remote|intros _; apply emits_ret].
  - intros e k. destruct (is_ClientError e); [|discriminate].
    intros [= <-]. apply emits_log_and_return.
Qed.

Lemma emits_scrape_line (act : str) (line : str) (ids : list str) :
  emits act (scrape_line line ids).
Proof.
  intros t. rewrite scrape_line_spec. eexists. exists [].
  split; [now rewrite app_nil_r|constructor].
Qed.

Lemma emits_action_delete (w : world) (vault_name : str) :
  emits (py "delete") (action_delete w vault_name []).
Proof.
  unfold action_delete. apply emits_bind.
  - intros t. unfold with_open.
    destruct (files w (py "archive.txt")) as [text|].
    + rewrite scrape_loop_spec. eexists. eexists.
      split; [rewrite <- !app_assoc; reflexivity|].
      constructor; [reflexivity|]. apply Forall_app. split.
      * apply Forall_forall. intros e He.
        apply in_map_iff in He as (l & <- & _). reflexivity.
      * now constructor.
    + eexists. eexists. split; [reflexivity|]. now constructor.
  - intros ids. unfold delete_loop. apply emits_for_each. intros id.
    apply emits_bind; [apply emits_delete_archive|].
    intros [|]; [apply emits_print|apply emits_ret].
Qed.

Lemma emits_action_unknown (w : world) (act name : str) :
  emits act (action_unknown w name).
Proof.
  unfold action_unknown.
  apply emits_bind; [apply emits_print|intros _; apply emits_print].
Qed.

Lemma in_calls (req : request) (t : trace) :
  In req (calls t) -> exists rep, In (ECall req rep) t.
Proof.
  unfold calls. intros H. apply in_flat_map in H as (e & He & Hin).
  destruct e; try contradiction. destruct Hin as [<-|[]]. now exists rep.
Qed.

(** X18.  Every remote call of a run serves the action that was asked for:
    the list action only lists vaults, start_inventory only initiates a
    job, get_inventory only fetches a job output, delete only deletes, and
    an unknown action calls nothing.  Only the delete action touches a
    file. *)
Theorem run_stays_in_its_action (py_repr : value -> str) (w : world)
    (fuel : nat) (a : args) :
  Forall (belongs (action a)) (snd (main py_repr w fuel a []))
  /\ (action a <> py "delete" ->
      forall vault_name archive_id,
        ~ In (DeleteArchive vault_name archive_id)
             (calls (snd (main py_repr w fuel a [])))).
Proof.
  assert (Hall : Forall (belongs (action a)) (snd (main py_repr w fuel a [])));
    [|split; [exact Hall|];
      intros Hact v id Hin; apply Hact;
      apply in_calls in Hin as (rep & Hin);
      exact (eq_sym (proj1 (Forall_forall _ _) Hall _ Hin))].
  assert (H : emits (action a) (main py_repr w fuel a)).
  { unfold main. apply emits_bind; [apply emits_emit; exact I|intros _].
    destruct (PyStr.eqb (action a) (py "list")) eqn:E1.
    { apply eqb_eq in E1. rewrite E1. apply emits_action_list. }
    destruct (PyStr.eqb (action a) (py "start_inventory")) eqn:E2.
    { apply eqb_eq in E2. rewrite E2. apply emits_action_start_inventory. }
    destruct (PyStr.eqb (action a) (py "get_inventory")) eqn:E3.
    { apply eqb_eq in E3. rewrite E3. apply emits_action_get_inventory. }
    destruct (PyStr.eqb (action a) (py "delete")) eqn:E4.
    { apply eqb_eq in E4. rewrite E4. apply emits_action_delete. }
    apply emits_action_unknown. }
  destruct (H []) as (r & evs & -> & Hall). exact Hall.
Qed.

Lemma run_stays_in_its_action_witness :
  ~ In (DeleteArchive (py "backups") (py "xyz-001"))
       (calls (snd (main no_repr sample_world 3 list_args []))).
Proof.
  apply (proj2 (run_stays_in_its_action no_repr sample_world 3 list_args)).
  intros H. vm_compute in H. discriminate H.
Defined.
